(** * The "60s" repeating minute timer: a shallow embedding of its script

    The repository holds two variants of the same timer script:
    [script.js], which binds its page elements when the script loads and
    dereferences them unguarded, and a second variant that looks the elements
    up in [initApp] and guards every use.  Both are embedded below, over one
    model of the browser environment (clock, localStorage, page elements,
    interval scheduler, emitted effects), in modules [Script] and [Guarded]. *)

From Stdlib Require Import ZArith QArith Qround String Ascii List Lia Bool.
From Stdlib Require Import DecimalString DecimalZ DecimalPos.
From stdpp Require Import base option gmap strings.
Import ListNotations.

#[local] Open Scope string_scope.
#[local] Open Scope Z_scope.

(** ** JavaScript values used by the script *)

(** Numbers.  Every number the script computes is an integer (clock readings,
    sums and differences of them, results of [parseInt]) or [NaN] (a failed
    [parseInt]); the one fractional intermediate, the quotient inside
    [msToMMSS], is modelled in [Q].  Integers are exact: the model does not
    round above 2^53, where the script's doubles do.  The operations below
    are those of the script on safe integers ([safe_int], the range of
    [Number.isSafeInteger]); the properties that depend on a count or on a
    stored number assume it safe. *)
Inductive jsnum : Type :=
  | Int (z : Z)
  | NaN.

(** [a > b] and [a < b]: false as soon as one side is [NaN]. *)
Definition js_gt (a b : jsnum) : bool :=
  match a, b with
  | Int x, Int y => y <? x
  | _, _ => false
  end.

Definition js_lt (a b : jsnum) : bool :=
  match a, b with
  | Int x, Int y => x <? y
  | _, _ => false
  end.

(** [a <= b], [a + b], [a - b] and [Math.max(a, b)]. *)
Definition js_le (a b : jsnum) : bool :=
  match a, b with
  | Int x, Int y => x <=? y
  | _, _ => false
  end.

Definition js_add (a b : jsnum) : jsnum :=
  match a, b with
  | Int x, Int y => Int (x + y)
  | _, _ => NaN
  end.

Definition js_sub (a b : jsnum) : jsnum :=
  match a, b with
  | Int x, Int y => Int (x - y)
  | _, _ => NaN
  end.

Definition js_max (a b : jsnum) : jsnum :=
  match a, b with
  | Int x, Int y => Int (Z.max x y)
  | _, _ => NaN
  end.

(** [x++] on a number variable.  Exact, so it is the script's increment
    as long as the result is at most 2^53 in magnitude; a double stays at
    2^53 when incremented. *)
Definition js_incr (a : jsnum) : jsnum :=
  match a with
  | Int x => Int (x + 1)
  | NaN => NaN
  end.

(** [Number.prototype.toString()] on an integer: decimal digits, with a
    leading minus sign for negatives.  This is what the script prints for
    integers up to 2^53 in magnitude; larger doubles print their shortest
    digits, and from 1e21 on in exponent form. *)
Definition Z_toString (z : Z) : string :=
  NilZero.string_of_int (Z.to_int z).

Definition toString (a : jsnum) : string :=
  match a with
  | Int z => Z_toString z
  | NaN => "NaN"
  end.

(** [Boolean.prototype.toString()]. *)
Definition bool_toString (b : bool) : string :=
  if b then "true" else "false".

(** [String.prototype.padStart(n, c)] with a one-character filler. *)
Fixpoint replicate_char (n : nat) (c : ascii) : string :=
  match n with
  | O => EmptyString
  | S k => String c (replicate_char k c)
  end.

Definition padStart (n : nat) (c : ascii) (s : string) : string :=
  (replicate_char (n - String.length s) c ++ s)%string.

(** [parseInt(s, 10)]: leading white space is skipped, one sign is accepted,
    then the longest run of decimal digits is read; no digit gives [NaN].
    Strings are byte strings and [is_space] knows the ASCII white space only
    (tab, line feed, vertical tab, form feed, carriage return, space), so
    this is the script's [parseInt] on ASCII strings ([ascii_only]); the
    digits are read exactly, which is the script's result when it is a safe
    integer. *)
Definition is_space (c : ascii) : bool :=
  let n := nat_of_ascii c in
  ((9 <=? n)%nat && (n <=? 13)%nat) || (n =? 32)%nat.

Fixpoint skip_spaces (s : string) : string :=
  match s with
  | String c r => if is_space c then skip_spaces r else s
  | EmptyString => EmptyString
  end.

Definition digit_of_char (c : ascii) : option (Decimal.uint -> Decimal.uint) :=
  match c with
  | "0" => Some Decimal.D0
  | "1" => Some Decimal.D1
  | "2" => Some Decimal.D2
  | "3" => Some Decimal.D3
  | "4" => Some Decimal.D4
  | "5" => Some Decimal.D5
  | "6" => Some Decimal.D6
  | "7" => Some Decimal.D7
  | "8" => Some Decimal.D8
  | "9" => Some Decimal.D9
  | _ => None
  end%char.

Fixpoint digits_prefix (s : string) : Decimal.uint :=
  match s with
  | String c r =>
      match digit_of_char c with
      | Some d => d (digits_prefix r)
      | None => Decimal.Nil
      end
  | EmptyString => Decimal.Nil
  end.

Definition parse_digits (negative : bool) (s : string) : jsnum :=
  match digits_prefix s with
  | Decimal.Nil => NaN
  | d => Int (if negative then - Z.of_uint d else Z.of_uint d)
  end.

Definition parseInt (s : string) : jsnum :=
  match skip_spaces s with
  | String "-" r => parse_digits true r
  | String "+" r => parse_digits false r
  | t => parse_digits false t
  end.

(** A string is truthy when it is not empty; [null] (a missing key) is
    falsy. *)
Definition truthy_str (o : option string) : bool :=
  match o with
  | Some (String _ _) => true
  | _ => false
  end.

(** [if (x)] on a variable holding an object or [null]. *)
Definition bound {A : Type} (o : option A) : bool :=
  match o with
  | Some _ => true
  | None => false
  end.

(** [o === s] for the result [o] of [localStorage.getItem]. *)
Definition str_is (o : option string) (s : string) : bool :=
  match o with
  | Some t => String.eqb t s
  | None => false
  end.

(** ** The range in which the model is exact *)

(** [Number.MAX_SAFE_INTEGER], 2^53 - 1, and [Number.isSafeInteger]. *)
Definition MAX_SAFE_INTEGER : Z := 9007199254740991.

Definition safe_int (z : Z) : Prop :=
  - MAX_SAFE_INTEGER <= z <= MAX_SAFE_INTEGER.

(** A number that is [NaN] or a safe integer. *)
Definition safe_num (a : jsnum) : Prop :=
  match a with
  | Int z => safe_int z
  | NaN => True
  end.

(** Strings made of ASCII characters only. *)
Definition ascii_char (c : ascii) : bool := (nat_of_ascii c <? 128)%nat.

Fixpoint ascii_only (s : string) : bool :=
  match s with
  | String c r => ascii_char c && ascii_only r
  | EmptyString => true
  end.

(** ** Constants *)

Definition DURATION : Z := 60.
Definition TICK_INTERVAL : Z := 250.

(** ** [msToMMSS] (identical in both variants) *)

(** [Math.ceil(Math.max(0, ms) / 1000)], the division taken in [Q].  For
    a safe integer [ms] the script's division of doubles has the same
    ceiling: the quotient is below 2^44, where a double is nearer than
    1/1000 to the exact quotient, and a quotient that is an integer is
    exact.  [minutes_of] likewise. *)
Definition totalSeconds (ms : Z) : Z :=
  Qceiling (inject_Z (Z.max 0 ms) / inject_Z 1000).

(** [Math.floor(totalSeconds / 60)]. *)
Definition minutes_of (ts : Z) : Z :=
  Qfloor (inject_Z ts / inject_Z 60).

(** [totalSeconds % 60]: the remainder has the sign of the dividend. *)
Definition seconds_of (ts : Z) : Z :=
  Z.rem ts 60.

Definition msToMMSS (ms : jsnum) : string :=
  match ms with
  | Int z =>
      let ts := totalSeconds z in
      (padStart 2 "0" (Z_toString (minutes_of ts)) ++ ":" ++
       padStart 2 "0" (Z_toString (seconds_of ts)))%string
  | NaN =>
      (padStart 2 "0" "NaN" ++ ":" ++ padStart 2 "0" "NaN")%string
  end.

(** ** The browser environment and the script's variables *)

(** A page element: its text and its [aria-pressed] attribute.  CSS classes
    and the deferred removal of the announcement node are presentation only
    and are left out. *)
Record Elem : Type := mkElem {
  textContent : string;
  ariaPressed : option string
}.

(** The background [<audio>] element. *)
Record Music : Type := mkMusic {
  mMuted : bool;
  mPlaying : bool
}.

(** What [document.getElementById] finds for each id the script asks for;
    [None] is JavaScript's [null].  The element variables of the script
    ([timerElement], [toggleBtn], ...) refer to these: [script.js] binds them
    when it loads, the guarded variant in [initApp], before anything else of
    it runs. *)
Record Page : Type := mkPage {
  timerElement : option Elem;
  toggleBtn : option Elem;
  restartBtn : option Elem;
  muteBtn : option Elem;
  sessionBadge : option Elem;
  bgMusic : option Music
}.

(** The module-level [let] variables. *)
Record Globals : Type := mkGlobals {
  endTimeMs : jsnum;
  intervalId : option nat;
  pausedRemainingMs : jsnum;
  running : bool;
  muted : bool;
  sessionCount : jsnum;
  audioContext : bool
}.

(** Effects the user can perceive when a cycle completes. *)
Inductive effect : Type :=
  | Announce (msg : string)
  | Chime
  | Vibrate (pattern : list Z).

Record World : Type := mkWorld {
  vars : Globals;
  clock : Z;                          (* what Date.now() returns *)
  localStorage : gmap string string;
  page : Page;
  timers : list nat;                  (* intervals the scheduler holds *)
  nextTimer : nat;                    (* id the next setInterval returns *)
  effects : list effect;              (* emitted so far, oldest first *)
  webAudio : bool;                    (* an AudioContext can be built *)
  canVibrate : bool;                  (* navigator.vibrate exists *)
  autoplay : bool                     (* play() is allowed without gesture *)
}.

(** Values of the variables when the script has just been loaded. *)
Definition initialVars : Globals :=
  {| endTimeMs := Int 0; intervalId := None;
     pausedRemainingMs := Int (DURATION * 1000);
     running := false; muted := false; sessionCount := Int 0;
     audioContext := false |}.

(** A freshly loaded page: initial variables, no interval scheduled. *)
Definition loadPage (now : Z) (store : gmap string string) (pg : Page)
    (audio vib auto : bool) : World :=
  {| vars := initialVars; clock := now; localStorage := store; page := pg;
     timers := []; nextTimer := 1; effects := [];
     webAudio := audio; canVibrate := vib; autoplay := auto |}.

(** Reloading the page keeps the store, the page and the clock, and drops
    the variables, the scheduled intervals and the log of effects. *)
Definition reload (w : World) : World :=
  loadPage (clock w) (localStorage w) (page w)
    (webAudio w) (canVibrate w) (autoplay w).

(** Field updates. *)
Definition with_vars (f : Globals -> Globals) (w : World) : World :=
  {| vars := f (vars w); clock := clock w; localStorage := localStorage w;
     page := page w; timers := timers w; nextTimer := nextTimer w;
     effects := effects w; webAudio := webAudio w;
     canVibrate := canVibrate w; autoplay := autoplay w |}.

Definition with_storage (f : gmap string string -> gmap string string)
    (w : World) : World :=
  {| vars := vars w; clock := clock w; localStorage := f (localStorage w);
     page := page w; timers := timers w; nextTimer := nextTimer w;
     effects := effects w; webAudio := webAudio w;
     canVibrate := canVibrate w; autoplay := autoplay w |}.

Definition with_page (f : Page -> Page) (w : World) : World :=
  {| vars := vars w; clock := clock w; localStorage := localStorage w;
     page := f (page w); timers := timers w; nextTimer := nextTimer w;
     effects := effects w; webAudio := webAudio w;
     canVibrate := canVibrate w; autoplay := autoplay w |}.

Definition with_timers (ts : list nat) (next : nat) (w : World) : World :=
  {| vars := vars w; clock := clock w; localStorage := localStorage w;
     page := page w; timers := ts; nextTimer := next;
     effects := effects w; webAudio := webAudio w;
     canVibrate := canVibrate w; autoplay := autoplay w |}.

Definition emit (e : effect) (w : World) : World :=
  {| vars := vars w; clock := clock w; localStorage := localStorage w;
     page := page w; timers := timers w; nextTimer := nextTimer w;
     effects := effects w ++ [e]; webAudio := webAudio w;
     canVibrate := canVibrate w; autoplay := autoplay w |}.

(** Time passing between two handler runs. *)
Definition advance (d : Z) (w : World) : World :=
  {| vars := vars w; clock := clock w + d; localStorage := localStorage w;
     page := page w; timers := timers w; nextTimer := nextTimer w;
     effects := effects w; webAudio := webAudio w;
     canVibrate := canVibrate w; autoplay := autoplay w |}.

Definition set_endTimeMs (v : jsnum) (g : Globals) : Globals :=
  {| endTimeMs := v; intervalId := intervalId g;
     pausedRemainingMs := pausedRemainingMs g; running := running g;
     muted := muted g; sessionCount := sessionCount g;
     audioContext := audioContext g |}.

Definition set_intervalId (v : option nat) (g : Globals) : Globals :=
  {| endTimeMs := endTimeMs g; intervalId := v;
     pausedRemainingMs := pausedRemainingMs g; running := running g;
     muted := muted g; sessionCount := sessionCount g;
     audioContext := audioContext g |}.

Definition set_pausedRemainingMs (v : jsnum) (g : Globals) : Globals :=
  {| endTimeMs := endTimeMs g; intervalId := intervalId g;
     pausedRemainingMs := v; running := running g;
     muted := muted g; sessionCount := sessionCount g;
     audioContext := audioContext g |}.

Definition set_running (v : bool) (g : Globals) : Globals :=
  {| endTimeMs := endTimeMs g; intervalId := intervalId g;
     pausedRemainingMs := pausedRemainingMs g; running := v;
     muted := muted g; sessionCount := sessionCount g;
     audioContext := audioContext g |}.

Definition set_muted (v : bool) (g : Globals) : Globals :=
  {| endTimeMs := endTimeMs g; intervalId := intervalId g;
     pausedRemainingMs := pausedRemainingMs g; running := running g;
     muted := v; sessionCount := sessionCount g;
     audioContext := audioContext g |}.

Definition set_sessionCount (v : jsnum) (g : Globals) : Globals :=
  {| endTimeMs := endTimeMs g; intervalId := intervalId g;
     pausedRemainingMs := pausedRemainingMs g; running := running g;
     muted := muted g; sessionCount := v;
     audioContext := audioContext g |}.

Definition set_audioContext (v : bool) (g : Globals) : Globals :=
  {| endTimeMs := endTimeMs g; intervalId := intervalId g;
     pausedRemainingMs := pausedRemainingMs g; running := running g;
     muted := muted g; sessionCount := sessionCount g;
     audioContext := v |}.

(** The element variables. *)
Inductive elvar : Type :=
  | TimerElement | ToggleBtn | RestartBtn | MuteBtn | SessionBadge.

Definition getEl (x : elvar) (pg : Page) : option Elem :=
  match x with
  | TimerElement => timerElement pg
  | ToggleBtn => toggleBtn pg
  | RestartBtn => restartBtn pg
  | MuteBtn => muteBtn pg
  | SessionBadge => sessionBadge pg
  end.

Definition putEl (x : elvar) (e : Elem) (pg : Page) : Page :=
  match x with
  | TimerElement =>
      {| timerElement := Some e; toggleBtn := toggleBtn pg;
         restartBtn := restartBtn pg; muteBtn := muteBtn pg;
         sessionBadge := sessionBadge pg; bgMusic := bgMusic pg |}
  | ToggleBtn =>
      {| timerElement := timerElement pg; toggleBtn := Some e;
         restartBtn := restartBtn pg; muteBtn := muteBtn pg;
         sessionBadge := sessionBadge pg; bgMusic := bgMusic pg |}
  | RestartBtn =>
      {| timerElement := timerElement pg; toggleBtn := toggleBtn pg;
         restartBtn := Some e; muteBtn := muteBtn pg;
         sessionBadge := sessionBadge pg; bgMusic := bgMusic pg |}
  | MuteBtn =>
      {| timerElement := timerElement pg; toggleBtn := toggleBtn pg;
         restartBtn := restartBtn pg; muteBtn := Some e;
         sessionBadge := sessionBadge pg; bgMusic := bgMusic pg |}
  | SessionBadge =>
      {| timerElement := timerElement pg; toggleBtn := toggleBtn pg;
         restartBtn := restartBtn pg; muteBtn := muteBtn pg;
         sessionBadge := Some e; bgMusic := bgMusic pg |}
  end.

Definition putMusic (m : Music) (pg : Page) : Page :=
  {| timerElement := timerElement pg; toggleBtn := toggleBtn pg;
     restartBtn := restartBtn pg; muteBtn := muteBtn pg;
     sessionBadge := sessionBadge pg; bgMusic := Some m |}.

(** ** Handlers as state transformers that may throw

    A handler runs on the world and either returns, or stops at an uncaught
    [TypeError] (a property of [null] was touched); the world it leaves
    behind is kept in both cases, since assignments made before the throw
    are not undone. *)
Inductive outcome (A : Type) : Type :=
  | Ok (a : A) (w : World)
  | Throw (w : World).
Arguments Ok {A} a w.
Arguments Throw {A} w.

Definition M (A : Type) : Type := World -> outcome A.

#[global] Instance M_ret : MRet M := fun A a w => Ok a w.
#[global] Instance M_bind : MBind M := fun A B f m w =>
  match m w with
  | Ok a w' => f a w'
  | Throw w' => Throw w'
  end.

(** The world a handler leaves behind. *)
Definition final {A} (r : outcome A) : World :=
  match r with
  | Ok _ w => w
  | Throw w => w
  end.

Definition gets {A} (f : World -> A) : M A := fun w => Ok (f w) w.
Definition modify (f : World -> World) : M unit := fun w => Ok tt (f w).
Definition var {A} (f : Globals -> A) : M A := gets (fun w => f (vars w)).
Definition assign (f : Globals -> Globals) : M unit := modify (with_vars f).

(** [Date.now()].  The clock does not move while one handler runs. *)
Definition dateNow : M Z := gets clock.

(** [localStorage.getItem / setItem / removeItem]. *)
Definition getItem (k : string) : M (option string) :=
  gets (fun w => localStorage w !! k).
Definition setItem (k v : string) : M unit :=
  modify (with_storage (insert k v)).
Definition removeItem (k : string) : M unit :=
  modify (with_storage (delete k)).

(** [setInterval(tick, TICK_INTERVAL)] hands out a fresh positive id and
    [clearInterval(id)] forgets it. *)
Definition setInterval : M nat := fun w =>
  Ok (nextTimer w) (with_timers (timers w ++ [nextTimer w]) (S (nextTimer w)) w).

Definition remove_id (i : nat) (l : list nat) : list nat :=
  List.filter (fun j => negb (Nat.eqb j i)) l.

Definition clearInterval (h : option nat) : M unit := fun w =>
  match h with
  | Some i => Ok tt (with_timers (remove_id i (timers w)) (nextTimer w) w)
  | None => Ok tt w
  end.

(** [if (intervalId)]: [null] and [0] are falsy. *)
Definition truthy_id (h : option nat) : bool :=
  match h with
  | Some (S _) => true
  | _ => false
  end.

(** [x.textContent = s] and [x.setAttribute('aria-pressed', v)]: a
    [TypeError] when [x] is [null]. *)
Definition setTextContent (x : elvar) (s : string) : M unit := fun w =>
  match getEl x (page w) with
  | Some e =>
      Ok tt (with_page (putEl x {| textContent := s;
                                   ariaPressed := ariaPressed e |}) w)
  | None => Throw w
  end.

Definition setAriaPressed (x : elvar) (v : string) : M unit := fun w =>
  match getEl x (page w) with
  | Some e =>
      Ok tt (with_page (putEl x {| textContent := textContent e;
                                   ariaPressed := Some v |}) w)
  | None => Throw w
  end.

(** [if (x) { body }] on an element variable. *)
Definition ifEl (x : elvar) (body : M unit) : M unit := fun w =>
  match getEl x (page w) with
  | Some _ => body w
  | None => Ok tt w
  end.

Definition when (b : bool) (body : M unit) : M unit :=
  if b then body else mret tt.

(** ** Functions that read the same in both variants *)

(** [initAudio]: the constructor may throw, which is caught and leaves
    [audioContext] at [null]. *)
Definition initAudio : M unit :=
  ok ← gets webAudio;
  assign (set_audioContext ok).

(** [playChime]: silent when muted or without an audio context. *)
Definition playChime : M unit :=
  m ← var muted;
  a ← var audioContext;
  if m || negb a : bool then mret tt
  else modify (emit Chime).

(** [triggerVibration]. *)
Definition triggerVibration : M unit :=
  m ← var muted;
  v ← gets canVibrate;
  if m || negb v : bool then mret tt
  else modify (emit (Vibrate [50; 30; 50])).

(** [setEndFromNow]. *)
Definition setEndFromNow : M unit :=
  now ← dateNow;
  assign (set_endTimeMs (js_add (Int now) (Int (DURATION * 1000)))).

(** The part of [onFinish] after the display has been set, up to the session
    badge: announcement, chime, vibration, counter. *)
Definition announceAndCount : M unit :=
  modify (emit (Announce "Minute complete"));;
  playChime;;
  triggerVibration;;
  n ← var sessionCount;
  assign (set_sessionCount (js_incr n)).

(** ** [script.js] *)

Module Script.

(** [onFinish]. *)
Definition onFinish : M unit :=
  setTextContent TimerElement "00:00";;
  announceAndCount;;
  n ← var sessionCount;
  setTextContent SessionBadge ("Cycles: " ++ toString n);;
  setItem "shanti_session_count" (toString n);;
  setEndFromNow.

(** [tick]. *)
Definition tick : M unit :=
  now ← dateNow;
  e ← var endTimeMs;
  let remainingMs := js_sub e (Int now) in
  if js_le remainingMs (Int 0) then onFinish
  else setTextContent TimerElement (msToMMSS remainingMs).

(** [startTimer]. *)
Definition startTimer : M unit :=
  r ← var running;
  if r : bool then mret tt else
  assign (set_running true);;
  setAriaPressed ToggleBtn "false";;
  setTextContent ToggleBtn "Pause";;
  p ← var pausedRemainingMs;
  (if js_gt p (Int 0) && js_lt p (Int (DURATION * 1000)) then
     now ← dateNow;
     assign (set_endTimeMs (js_add (Int now) p))
   else setEndFromNow);;
  h ← var intervalId;
  when (truthy_id h) (clearInterval h);;
  i ← setInterval;
  assign (set_intervalId (Some i));;
  setItem "shanti_running" "1";;
  removeItem "shanti_paused_remaining".

(** [pauseTimer]. *)
Definition pauseTimer : M unit :=
  r ← var running;
  if negb r : bool then mret tt else
  assign (set_running false);;
  setAriaPressed ToggleBtn "true";;
  setTextContent ToggleBtn "Resume";;
  h ← var intervalId;
  clearInterval h;;
  assign (set_intervalId None);;
  now ← dateNow;
  e ← var endTimeMs;
  assign (set_pausedRemainingMs (js_max (Int 0) (js_sub e (Int now))));;
  setItem "shanti_running" "0";;
  p ← var pausedRemainingMs;
  setItem "shanti_paused_remaining" (toString p).

(** [toggleTimer]. *)
Definition toggleTimer : M unit :=
  r ← var running;
  if r : bool then pauseTimer else startTimer.

(** [restartTimer]. *)
Definition restartTimer : M unit :=
  assign (set_pausedRemainingMs (Int (DURATION * 1000)));;
  r ← var running;
  (if r : bool then setEndFromNow;; tick
   else setTextContent TimerElement "01:00");;
  p ← var pausedRemainingMs;
  setItem "shanti_paused_remaining" (toString p).

(** [toggleMute]. *)
Definition toggleMute : M unit :=
  m ← var muted;
  assign (set_muted (negb m));;
  m ← var muted;
  setAriaPressed MuteBtn (bool_toString m);;
  setTextContent MuteBtn (if m then "Unmute" else "Mute");;
  modify (with_page (fun pg =>
    match bgMusic pg with
    | Some mu => putMusic {| mMuted := m; mPlaying := mPlaying mu |} pg
    | None => pg
    end));;
  setItem "shanti_muted" (bool_toString m).

(** [handleKeyboardShortcuts], on the tag name of the event's target and
    the key: nothing while typing in a field; else the space bar toggles,
    "r" restarts and "m" mutes, in either case of the letter. *)
Definition handleKeyboardShortcuts (tagName key : string) : M unit :=
  if String.eqb tagName "INPUT" || String.eqb tagName "TEXTAREA" then mret tt
  else if String.eqb key " " then toggleTimer
  else if String.eqb key "r" || String.eqb key "R" then restartTimer
  else if String.eqb key "m" || String.eqb key "M" then toggleMute
  else mret tt.

(** [x.addEventListener(...)]: only its [TypeError] on [null] is modelled;
    the handlers it installs are the public operations below. *)
Definition addEventListener (x : elvar) : M unit := fun w =>
  match getEl x (page w) with
  | Some _ => Ok tt w
  | None => Throw w
  end.

(** [bgMusic.play()]: starts the loop when the platform allows it; the
    rejected promise only installs a retry on the next user gesture. *)
Definition playMusic : M unit :=
  ok ← gets autoplay;
  modify (with_page (fun pg =>
    match bgMusic pg with
    | Some mu =>
        if ok : bool then putMusic {| mMuted := mMuted mu; mPlaying := true |} pg
        else pg
    | None => pg
    end)).

(** The blocks of the [DOMContentLoaded] handler that restore the mute
    flag, the session count and the saved remaining time. *)
Definition restoreMute (savedMuted : option string) : M unit :=
  when (str_is savedMuted "true")
    (assign (set_muted true);;
     setAriaPressed MuteBtn "true";;
     setTextContent MuteBtn "Unmute";;
     modify (with_page (fun pg =>
       match bgMusic pg with
       | Some mu => putMusic {| mMuted := true; mPlaying := mPlaying mu |} pg
       | None => pg
       end))).

Definition restoreSessionCount (savedSessionCount : option string) : M unit :=
  when (truthy_str savedSessionCount)
    (assign (set_sessionCount (parseInt (default "" savedSessionCount)));;
     n ← var sessionCount;
     setTextContent SessionBadge ("Cycles: " ++ toString n)).

Definition restorePausedRemaining (savedPausedRemaining : option string)
    : M unit :=
  when (truthy_str savedPausedRemaining)
    (assign (set_pausedRemainingMs
               (parseInt (default "" savedPausedRemaining)));;
     p ← var pausedRemainingMs;
     setTextContent TimerElement (msToMMSS p)).

(** "Keep paused but show saved remaining time". *)
Definition keepPaused : M unit :=
  assign (set_running false);;
  setAriaPressed ToggleBtn "true";;
  setTextContent ToggleBtn "Resume".

Definition addEventListeners : M unit :=
  addEventListener ToggleBtn;;
  addEventListener RestartBtn;;
  addEventListener MuteBtn.

(** The [DOMContentLoaded] handler. *)
Definition onDOMContentLoaded : M unit :=
  initAudio;;
  playMusic;;
  savedMuted ← getItem "shanti_muted";
  savedRunning ← getItem "shanti_running";
  savedPausedRemaining ← getItem "shanti_paused_remaining";
  savedSessionCount ← getItem "shanti_session_count";
  restoreMute savedMuted;;
  restoreSessionCount savedSessionCount;;
  restorePausedRemaining savedPausedRemaining;;
  (if str_is savedRunning "1" then startTimer
   else when (truthy_str savedPausedRemaining) keepPaused);;
  addEventListeners;;
  when (negb (str_is savedRunning "0")) startTimer.

End Script.

(** ** The guarded variant *)

Module Guarded.

(** [onFinish]: nothing at all happens without a timer element. *)
Definition onFinish : M unit :=
  ifEl TimerElement
    (setTextContent TimerElement "00:00";;
     announceAndCount;;
     n ← var sessionCount;
     ifEl SessionBadge
       (setTextContent SessionBadge ("Cycles: " ++ toString n));;
     setItem "shanti_session_count" (toString n);;
     setEndFromNow).

(** [tick]. *)
Definition tick : M unit :=
  now ← dateNow;
  e ← var endTimeMs;
  let remainingMs := js_sub e (Int now) in
  if js_le remainingMs (Int 0) then onFinish
  else ifEl TimerElement
         (setTextContent TimerElement (msToMMSS remainingMs)).

(** [startTimer]. *)
Definition startTimer : M unit :=
  r ← var running;
  if r : bool then mret tt else
  assign (set_running true);;
  ifEl ToggleBtn
    (setAriaPressed ToggleBtn "false";;
     setTextContent ToggleBtn "Pause");;
  p ← var pausedRemainingMs;
  (if js_gt p (Int 0) && js_lt p (Int (DURATION * 1000)) then
     now ← dateNow;
     assign (set_endTimeMs (js_add (Int now) p))
   else setEndFromNow);;
  h ← var intervalId;
  when (truthy_id h) (clearInterval h);;
  i ← setInterval;
  assign (set_intervalId (Some i));;
  setItem "shanti_running" "1";;
  removeItem "shanti_paused_remaining".

(** [pauseTimer]. *)
Definition pauseTimer : M unit :=
  r ← var running;
  if negb r : bool then mret tt else
  assign (set_running false);;
  ifEl ToggleBtn
    (setAriaPressed ToggleBtn "true";;
     setTextContent ToggleBtn "Resume");;
  h ← var intervalId;
  clearInterval h;;
  assign (set_intervalId None);;
  now ← dateNow;
  e ← var endTimeMs;
  assign (set_pausedRemainingMs (js_max (Int 0) (js_sub e (Int now))));;
  setItem "shanti_running" "0";;
  p ← var pausedRemainingMs;
  setItem "shanti_paused_remaining" (toString p).

(** [toggleTimer]. *)
Definition toggleTimer : M unit :=
  r ← var running;
  if r : bool then pauseTimer else startTimer.

(** [restartTimer]. *)
Definition restartTimer : M unit :=
  assign (set_pausedRemainingMs (Int (DURATION * 1000)));;
  r ← var running;
  (if r : bool then setEndFromNow;; tick
   else ifEl TimerElement (setTextContent TimerElement "01:00"));;
  p ← var pausedRemainingMs;
  setItem "shanti_paused_remaining" (toString p).

(** [bgMusic.pause()] and [bgMusic.play()]; a blocked [play] only installs a
    retry on the next user gesture. *)
Definition pauseMusic : M unit :=
  modify (with_page (fun pg =>
    match bgMusic pg with
    | Some mu => putMusic {| mMuted := mMuted mu; mPlaying := false |} pg
    | None => pg
    end)).

Definition playMusic : M unit :=
  ok ← gets autoplay;
  modify (with_page (fun pg =>
    match bgMusic pg with
    | Some mu =>
        if ok : bool then putMusic {| mMuted := mMuted mu; mPlaying := true |} pg
        else pg
    | None => pg
    end)).

(** [toggleMute]. *)
Definition toggleMute : M unit :=
  m ← var muted;
  assign (set_muted (negb m));;
  m ← var muted;
  ifEl MuteBtn
    (setAriaPressed MuteBtn (bool_toString m);;
     setTextContent MuteBtn (if m then "Unmute" else "Mute"));;
  (if m : bool then pauseMusic else playMusic);;
  setItem "shanti_muted" (bool_toString m).

(** [handleKeyboardShortcuts], as in [script.js]. *)
Definition handleKeyboardShortcuts (tagName key : string) : M unit :=
  if String.eqb tagName "INPUT" || String.eqb tagName "TEXTAREA" then mret tt
  else if String.eqb key " " then toggleTimer
  else if String.eqb key "r" || String.eqb key "R" then restartTimer
  else if String.eqb key "m" || String.eqb key "M" then toggleMute
  else mret tt.

(** The blocks of [initApp]: background music set-up, then the restoring
    of the mute flag, the session count and the saved remaining time. *)
Definition setupMusic : M unit :=
  mu ← gets (fun w => bgMusic (page w));
  when (bound mu)
    (savedMuted ← getItem "shanti_muted";
     assign (set_muted (str_is savedMuted "true"));;
     m ← var muted;
     btn ← gets (fun w => muteBtn (page w));
     when (m && bound btn)
       (setAriaPressed MuteBtn "true";;
        setTextContent MuteBtn "Unmute";;
        modify (with_page (fun pg =>
          match bgMusic pg with
          | Some mu => putMusic {| mMuted := true; mPlaying := mPlaying mu |} pg
          | None => pg
          end)));;
     playMusic).

Definition restoreMute (savedMuted : option string) : M unit :=
  when (str_is savedMuted "true")
    (assign (set_muted true);;
     ifEl MuteBtn
       (setAriaPressed MuteBtn "true";;
        setTextContent MuteBtn "Unmute")).

Definition restoreSessionCount (savedSessionCount : option string) : M unit :=
  when (truthy_str savedSessionCount)
    (assign (set_sessionCount (parseInt (default "" savedSessionCount)));;
     n ← var sessionCount;
     ifEl SessionBadge
       (setTextContent SessionBadge ("Cycles: " ++ toString n))).

Definition restorePausedRemaining (savedPausedRemaining : option string)
    : M unit :=
  when (truthy_str savedPausedRemaining)
    (assign (set_pausedRemainingMs
               (parseInt (default "" savedPausedRemaining)));;
     p ← var pausedRemainingMs;
     ifEl TimerElement (setTextContent TimerElement (msToMMSS p))).

(** "Start fresh timer": the branch taken unless [shanti_running] is "1". *)
Definition startFresh : M unit :=
  assign (set_running false);;
  ifEl ToggleBtn
    (setAriaPressed ToggleBtn "false";;
     setTextContent ToggleBtn "Pause");;
  startTimer.

(** [initApp].  It is run once, when the document is ready.  Its first
    statements bind the element variables, and its listener registrations
    are guarded: neither changes the state modelled here. *)
Definition initApp : M unit :=
  initAudio;;
  setupMusic;;
  savedMuted ← getItem "shanti_muted";
  savedRunning ← getItem "shanti_running";
  savedPausedRemaining ← getItem "shanti_paused_remaining";
  savedSessionCount ← getItem "shanti_session_count";
  restoreMute savedMuted;;
  restoreSessionCount savedSessionCount;;
  restorePausedRemaining savedPausedRemaining;;
  (if str_is savedRunning "1" then startTimer else startFresh).

End Guarded.

(** ** Sample pages and runs *)

(** A page with every element the script asks for. *)
Definition fullPage : Page :=
  {| timerElement := Some {| textContent := "01:00"; ariaPressed := None |};
     toggleBtn := Some {| textContent := "Pause"; ariaPressed := Some "false" |};
     restartBtn := Some {| textContent := "Restart"; ariaPressed := None |};
     muteBtn := Some {| textContent := "Mute"; ariaPressed := Some "false" |};
     sessionBadge := Some {| textContent := "Cycles: 0"; ariaPressed := None |};
     bgMusic := Some {| mMuted := false; mPlaying := false |} |}.

(** A page without any of them. *)
Definition emptyPage : Page :=
  {| timerElement := None; toggleBtn := None; restartBtn := None;
     muteBtn := None; sessionBadge := None; bgMusic := None |}.

(** The snapshot of the round-trip property. *)
Definition pausedSnapshot : gmap string string :=
  <["shanti_running" := "0"]>
  (<["shanti_paused_remaining" := "30000"]>
  (<["shanti_muted" := "true"]>
  (<["shanti_session_count" := "7"]> ∅))).

(** ** Vocabulary of the specification *)

Definition cycleDurationMs : Z := DURATION * 1000.

(** "Zero-padded to two digits", for a non-negative integer. *)
Definition pad2 (z : Z) : string :=
  if z <? 10 then String "0" (Z_toString z) else Z_toString z.

(** The two phases of the engine; [running] is the phase flag. *)
Inductive phase : Type := Running | Paused.

Definition phase_of (w : World) : phase :=
  if running (vars w) then Running else Paused.

(** The time left according to the source the phase selects: [endTimeMs]
    against the clock while running, [pausedRemainingMs] while paused. *)
Definition remainingMs (w : World) : jsnum :=
  match phase_of w with
  | Running => js_sub (endTimeMs (vars w)) (Int (clock w))
  | Paused => pausedRemainingMs (vars w)
  end.

(** What the user perceives of one finish transition in world [w]. *)
Definition finishEffects (w : World) : list effect :=
  Announce "Minute complete" ::
  (if muted (vars w) || negb (audioContext (vars w)) then [] else [Chime]) ++
  (if muted (vars w) || negb (canVibrate w) then []
   else [Vibrate [50; 30; 50]]).

(** Finish transitions so far: each one announces exactly once. *)
Definition is_finish (e : effect) : bool :=
  match e with
  | Announce _ => true
  | _ => false
  end.

Definition finishCount (w : World) : nat :=
  length (List.filter is_finish (effects w)).

Definition timerText (w : World) : option string :=
  textContent <$> timerElement (page w).

(** Every element variable is bound to an element. *)
Definition page_complete (pg : Page) : Prop :=
  is_Some (timerElement pg) /\ is_Some (toggleBtn pg) /\
  is_Some (restartBtn pg) /\ is_Some (muteBtn pg) /\
  is_Some (sessionBadge pg).

(** Handlers change what elements show, never which elements exist. *)
Definition has (x : elvar) (pg : Page) : bool :=
  match getEl x pg with
  | Some _ => true
  | None => false
  end.

Definition same_elements (pg pg' : Page) : Prop :=
  forall x, has x pg' = has x pg.

(** The clock, the capabilities and the set of elements are as before. *)
Definition same_env (w w' : World) : Prop :=
  clock w' = clock w /\ webAudio w' = webAudio w /\
  canVibrate w' = canVibrate w /\ autoplay w' = autoplay w /\
  same_elements (page w) (page w').

(** Moreover the store, the scheduler and the emitted effects are. *)
Definition frame (w w' : World) : Prop :=
  same_env w w' /\ localStorage w' = localStorage w /\
  timers w' = timers w /\ nextTimer w' = nextTimer w /\
  effects w' = effects w.

(** The intervals left by the "clear any existing interval" step. *)
Definition cleared (w : World) : list nat :=
  match intervalId (vars w) with
  | Some (S i) => remove_id (S i) (timers w)
  | _ => timers w
  end.

(** The time a cycle started from saved remaining time [p] has to run. *)
Definition resumeLeft (p : jsnum) : Z :=
  match p with
  | Int z => if (0 <? z) && (z <? cycleDurationMs) then z else cycleDurationMs
  | NaN => cycleDurationMs
  end.

(** What [startTimer] leaves behind when it starts from [w]. *)
Definition start_post (w w' : World) : Prop :=
  running (vars w') = true /\
  (forall p, pausedRemainingMs (vars w) = Int p ->
             0 < p < cycleDurationMs ->
             endTimeMs (vars w') = Int (clock w + p)) /\
  ((forall p, pausedRemainingMs (vars w) = Int p ->
              ~ 0 < p < cycleDurationMs) ->
   endTimeMs (vars w') = Int (clock w + cycleDurationMs)) /\
  localStorage w' =
    delete "shanti_paused_remaining"
      (<["shanti_running" := "1"]> (localStorage w)) /\
  intervalId (vars w') = Some (nextTimer w) /\
  timers w' = (cleared w ++ [nextTimer w])%list /\
  nextTimer w' = S (nextTimer w) /\
  pausedRemainingMs (vars w') = pausedRemainingMs (vars w) /\
  muted (vars w') = muted (vars w) /\
  sessionCount (vars w') = sessionCount (vars w) /\
  effects w' = effects w /\
  same_env w w'.

(** What [pauseTimer] leaves behind when it pauses [w]. *)
Definition pause_post (w w' : World) : Prop :=
  running (vars w') = false /\
  pausedRemainingMs (vars w') =
    js_max (Int 0) (js_sub (endTimeMs (vars w)) (Int (clock w))) /\
  (forall e, endTimeMs (vars w) = Int e ->
             pausedRemainingMs (vars w') = Int (Z.max 0 (e - clock w))) /\
  intervalId (vars w') = None /\
  (forall i, intervalId (vars w) = Some i -> ~ In i (timers w')) /\
  timers w' =
    match intervalId (vars w) with
    | Some i => remove_id i (timers w)
    | None => timers w
    end /\
  nextTimer w' = nextTimer w /\
  localStorage w' =
    <["shanti_paused_remaining" := toString (pausedRemainingMs (vars w'))]>
      (<["shanti_running" := "0"]> (localStorage w)) /\
  endTimeMs (vars w') = endTimeMs (vars w) /\
  muted (vars w') = muted (vars w) /\
  sessionCount (vars w') = sessionCount (vars w) /\
  effects w' = effects w /\
  same_env w w'.

(** What [restartTimer] leaves behind. *)
Definition restart_post (w w' : World) : Prop :=
  pausedRemainingMs (vars w') = Int cycleDurationMs /\
  running (vars w') = running (vars w) /\
  (running (vars w) = true ->
   endTimeMs (vars w') = Int (clock w + cycleDurationMs)) /\
  (running (vars w) = false ->
   endTimeMs (vars w') = endTimeMs (vars w)) /\
  timerText w' = (fun _ => "01:00") <$> timerText w /\
  localStorage w' =
    <["shanti_paused_remaining" := "60000"]> (localStorage w) /\
  effects w' = effects w /\
  sessionCount (vars w') = sessionCount (vars w) /\
  muted (vars w') = muted (vars w) /\
  timers w' = timers w /\
  nextTimer w' = nextTimer w /\
  intervalId (vars w') = intervalId (vars w) /\
  same_env w w'.

(** What the finish transition leaves behind. *)
Definition finish_post (w w' : World) : Prop :=
  timerText w' = Some "00:00" /\
  effects w' = (effects w ++ finishEffects w)%list /\
  sessionCount (vars w') = js_incr (sessionCount (vars w)) /\
  (forall n, sessionCount (vars w) = Int n ->
             sessionCount (vars w') = Int (n + 1)) /\
  localStorage w' =
    <["shanti_session_count" := toString (sessionCount (vars w'))]>
      (localStorage w) /\
  endTimeMs (vars w') = Int (clock w + cycleDurationMs) /\
  js_sub (endTimeMs (vars w')) (Int (clock w')) = Int cycleDurationMs /\
  running (vars w') = running (vars w) /\
  pausedRemainingMs (vars w') = pausedRemainingMs (vars w) /\
  muted (vars w') = muted (vars w) /\
  timers w' = timers w /\
  nextTimer w' = nextTimer w /\
  intervalId (vars w') = intervalId (vars w) /\
  same_env w w'.

(** What a tick leaves behind while the cycle still has time to run. *)
Definition idle_post (left : Z) (w w' : World) : Prop :=
  vars w' = vars w /\
  timerText w' = (fun _ => msToMMSS (Int left)) <$> timerText w /\
  frame w w'.

(** What [toggleMute] leaves behind. *)
Definition mute_post (w w' : World) : Prop :=
  vars w' = set_muted (negb (muted (vars w))) (vars w) /\
  localStorage w' =
    <["shanti_muted" := bool_toString (negb (muted (vars w)))]>
      (localStorage w) /\
  timers w' = timers w /\ nextTimer w' = nextTimer w /\
  effects w' = effects w /\ same_env w w'.

(** ** Page loads, operations and reachable states *)

(** The saved remaining time a page load restores, and the saved count. *)
Definition restoredRemaining (store : gmap string string) : jsnum :=
  if truthy_str (store !! "shanti_paused_remaining")
  then parseInt (default "" (store !! "shanti_paused_remaining"))
  else Int cycleDurationMs.

Definition restoredCount (store : gmap string string) : jsnum :=
  if truthy_str (store !! "shanti_session_count")
  then parseInt (default "" (store !! "shanti_session_count"))
  else Int 0.

(** The variables once the saved state is restored, before the page load
    decides whether to start the timer. *)
Definition restoredVars (audio : bool) (store : gmap string string)
    : Globals :=
  set_pausedRemainingMs (restoredRemaining store)
    (set_sessionCount (restoredCount store)
       (set_muted (str_is (store !! "shanti_muted") "true")
          (set_audioContext audio initialVars))).

(** The world a page load at [now] leaves behind, with the timer started
    or not. *)
Definition boot_post (started : bool) (now : Z) (store : gmap string string)
    (pg : Page) (w' : World) : Prop :=
  clock w' = now /\ same_elements pg (page w') /\ effects w' = [] /\
  muted (vars w') = str_is (store !! "shanti_muted") "true" /\
  sessionCount (vars w') = restoredCount store /\
  pausedRemainingMs (vars w') = restoredRemaining store /\
  running (vars w') = started /\
  if started then
    endTimeMs (vars w') = Int (now + resumeLeft (restoredRemaining store)) /\
    intervalId (vars w') = Some 1%nat /\
    timers w' = [1%nat] /\ nextTimer w' = 2%nat /\
    localStorage w' =
      delete "shanti_paused_remaining" (<["shanti_running" := "1"]> store)
  else
    endTimeMs (vars w') = Int 0 /\
    intervalId (vars w') = None /\
    timers w' = [] /\ nextTimer w' = 1%nat /\
    localStorage w' = store.

(** The engine counts down a cycle that began at [now] with [left] ms to
    go. *)
Definition counting_from (now left : Z) (w : World) : Prop :=
  phase_of w = Running /\
  endTimeMs (vars w) = Int (now + left) /\
  intervalId (vars w) = Some 1%nat /\
  timers w = [1%nat] /\
  localStorage w !! "shanti_running" = Some "1" /\
  localStorage w !! "shanti_paused_remaining" = None.

(** The snapshot of the round-trip property, as lookups. *)
Definition holds_pausedSnapshot (store : gmap string string) : Prop :=
  store !! "shanti_running" = Some "0" /\
  store !! "shanti_paused_remaining" = Some "30000" /\
  store !! "shanti_muted" = Some "true" /\
  store !! "shanti_session_count" = Some "7".

(** The round-trip property as the specification words it, for a page
    load handler [init]: the engine comes back paused, with the saved
    remaining time, mute flag and cycle count. *)
Definition roundtrip_as_stated (init : M unit) : Prop :=
  forall now store pg audio vib auto,
    holds_pausedSnapshot store -> page_complete pg ->
    exists w', init (loadPage now store pg audio vib auto) = Ok tt w' /\
               phase_of w' = Paused /\
               remainingMs w' = Int 30000 /\
               muted (vars w') = true /\
               sessionCount (vars w') = Int 7.

(** A stored value that is present, made of ASCII characters, and does not
    read as an integer. *)
Definition unparsable (o : option string) : Prop :=
  exists s, o = Some s /\ s <> "" /\ ascii_only s = true /\
            parseInt s = NaN.

(** "Malformed persisted state is treated as absent", as the specification
    words it: an unparsable count gives a zero count and an unparsable
    remaining time a full cycle to run. *)
Definition malformed_as_stated (init : M unit) : Prop :=
  forall now store pg audio vib auto,
    page_complete pg ->
    exists w', init (loadPage now store pg audio vib auto) = Ok tt w' /\
      (unparsable (store !! "shanti_session_count") ->
       sessionCount (vars w') = Int 0) /\
      (unparsable (store !! "shanti_paused_remaining") ->
       remainingMs w' = Int cycleDurationMs).

(** What the code does with such values. *)
Definition malformed_post (now : Z) (store : gmap string string)
    (w' : World) : Prop :=
  (unparsable (store !! "shanti_session_count") ->
   sessionCount (vars w') = NaN) /\
  (unparsable (store !! "shanti_paused_remaining") ->
   pausedRemainingMs (vars w') = NaN /\
   (phase_of w' = Running ->
    endTimeMs (vars w') = Int (now + cycleDurationMs))) /\
  (store !! "shanti_session_count" = Some "" ->
   sessionCount (vars w') = Int 0) /\
  (store !! "shanti_paused_remaining" = Some "" ->
   pausedRemainingMs (vars w') = Int cycleDurationMs) /\
  muted (vars w') = str_is (store !! "shanti_muted") "true".

(** Stores with a malformed count, and with a malformed remaining time
    next to a "paused" flag. *)
Definition badCountStore : gmap string string :=
  <["shanti_session_count" := "abc"]> ∅.

Definition badRemainingStore : gmap string string :=
  <["shanti_running" := "0"]> (<["shanti_paused_remaining" := "abc"]> ∅).

(** The two variants, as the operations a page offers. *)
Record program : Type := mkProgram {
  p_init : M unit;
  p_key : string -> string -> M unit;
  p_start : M unit;
  p_pause : M unit;
  p_toggle : M unit;
  p_restart : M unit;
  p_mute : M unit;
  p_tick : M unit
}.

Definition script : program :=
  {| p_init := Script.onDOMContentLoaded;
     p_key := Script.handleKeyboardShortcuts; p_start := Script.startTimer;
     p_pause := Script.pauseTimer; p_toggle := Script.toggleTimer;
     p_restart := Script.restartTimer; p_mute := Script.toggleMute;
     p_tick := Script.tick |}.

Definition guarded : program :=
  {| p_init := Guarded.initApp;
     p_key := Guarded.handleKeyboardShortcuts; p_start := Guarded.startTimer;
     p_pause := Guarded.pauseTimer; p_toggle := Guarded.toggleTimer;
     p_restart := Guarded.restartTimer; p_mute := Guarded.toggleMute;
     p_tick := Guarded.tick |}.

(** One round of the scheduler: every pending interval fires once. *)
Definition fireAll (P : program) (w : World) : World :=
  fold_left (fun v _ => final (p_tick P v)) (timers w) w.

(** What can happen to a loaded page: a control or a key is used, the
    scheduler fires the pending intervals, time passes, or the page is
    loaded again. *)
Inductive op : Type :=
  | OpStart | OpPause | OpToggle | OpRestart | OpToggleMute
  | OpKey (tagName key : string)
  | OpTick | OpWait (d : N) | OpReload.

Definition step (P : program) (o : op) (w : World) : World :=
  match o with
  | OpStart => final (p_start P w)
  | OpPause => final (p_pause P w)
  | OpToggle => final (p_toggle P w)
  | OpRestart => final (p_restart P w)
  | OpToggleMute => final (p_mute P w)
  | OpKey tagName key => final (p_key P tagName key w)
  | OpTick => fireAll P w
  | OpWait d => advance (Z.of_N d) w
  | OpReload => final (p_init P (reload w))
  end.

Inductive reachable (P : program) (w0 : World) : World -> Prop :=
  | reach_init : reachable P w0 (final (p_init P w0))
  | reach_step (w : World) (o : op) :
      reachable P w0 w -> reachable P w0 (step P o w).

(** A stored remaining time is usable when it reads as an integer between
    0 and the cycle duration; everything the engine writes is. *)
Definition store_ok (store : gmap string string) : Prop :=
  forall s, store !! "shanti_paused_remaining" = Some s ->
            truthy_str (Some s) = true ->
            exists p, parseInt s = Int p /\ 0 <= p <= cycleDurationMs.

Definition time_inv (w : World) : Prop :=
  0 <= clock w /\
  (exists e, endTimeMs (vars w) = Int e /\ e <= clock w + cycleDurationMs) /\
  (exists p, pausedRemainingMs (vars w) = Int p /\
             0 <= p <= cycleDurationMs) /\
  store_ok (localStorage w).

Definition timer_inv (w : World) : Prop :=
  (1 <= nextTimer w)%nat /\
  match intervalId (vars w) with
  | Some i =>
      running (vars w) = true /\ timers w = [i] /\
      (1 <= i < nextTimer w)%nat
  | None => running (vars w) = false /\ timers w = []
  end.

Definition inv (w : World) : Prop := time_inv w /\ timer_inv w.

(** The part of the invariant that does not depend on what the store
    held when the page was loaded. *)
Definition sched_inv (w : World) : Prop :=
  timer_inv w /\ exists e, endTimeMs (vars w) = Int e.

(** Once a running cycle has run out, one round of the scheduler produces
    exactly one finish, and no further one for the next cycle duration. *)
Definition one_finish_per_cycle (P : program) (w : World) : Prop :=
  forall e,
    phase_of w = Running -> endTimeMs (vars w) = Int e -> e <= clock w ->
    finishCount (fireAll P w) = S (finishCount w) /\
    forall d, 0 <= d < cycleDurationMs ->
      finishCount (fireAll P (advance d (fireAll P w))) = S (finishCount w).

(** The invariants of the specification's data model: the phase is one of
    the two, [pausedRemainingMs] is an integer between 0 and the cycle
    duration, and the source the phase selects gives a remaining time that
    is an integer no larger than the cycle duration. *)
Definition model_inv (w : World) : Prop :=
  (phase_of w = Running \/ phase_of w = Paused) /\
  (exists p, pausedRemainingMs (vars w) = Int p /\
             0 <= p <= cycleDurationMs) /\
  (exists r, remainingMs w = Int r /\ r <= cycleDurationMs).

(** The same invariants, claimed of every state reachable from any page
    load. *)
Definition model_inv_as_stated (P : program) : Prop :=
  forall now store pg audio vib auto w,
    page_complete pg ->
    reachable P (loadPage now store pg audio vib auto) w ->
    model_inv w.

(** A store whose saved remaining time is larger than a cycle. *)
Definition longRemainingStore : gmap string string :=
  <["shanti_running" := "0"]> (<["shanti_paused_remaining" := "90000"]> ∅).

(** ** Sample worlds *)

(** A running engine on the full page whose cycle ended half a second
    ago, and the same engine with ten seconds left. *)
Definition expiredWorld : World :=
  with_timers [1%nat] 2%nat
    (with_vars (fun g => set_intervalId (Some 1%nat)
                           (set_running true (set_endTimeMs (Int 500) g)))
       (loadPage 1000 ∅ fullPage true true true)).

Definition runningWorld : World :=
  with_timers [1%nat] 2%nat
    (with_vars (fun g => set_intervalId (Some 1%nat)
                           (set_running true (set_endTimeMs (Int 11000) g)))
       (loadPage 1000 ∅ fullPage true true true)).

(** ** Compositions of the controls *)

(** Toggle, let [d] ms pass, toggle again. *)
Definition toggle_wait_toggle (P : program) (d : Z) (w : World) : World :=
  final (p_toggle P (advance d (final (p_toggle P w)))).

(** Restart, then start. *)
Definition restart_then_start (P : program) (w : World) : World :=
  final (p_start P (final (p_restart P w))).

(** The engine runs with [left] ms to go, and neither the count nor the
    emitted effects differ from those of [w]. *)
Definition resumed_with (left : Z) (w w' : World) : Prop :=
  phase_of w' = Running /\
  remainingMs w' = Int left /\
  sessionCount (vars w') = sessionCount (vars w) /\
  effects w' = effects w /\
  localStorage w' !! "shanti_running" = Some "1" /\
  localStorage w' !! "shanti_paused_remaining" = None.

(** The engine is paused with [left] ms saved, in the variable and in the
    store. *)
Definition paused_with (left : Z) (w w' : World) : Prop :=
  phase_of w' = Paused /\
  pausedRemainingMs (vars w') = Int left /\
  sessionCount (vars w') = sessionCount (vars w) /\
  effects w' = effects w /\
  localStorage w' !! "shanti_running" = Some "0" /\
  localStorage w' !! "shanti_paused_remaining" = Some (Z_toString left).

(** A paused engine on the full page with 30 seconds saved. *)
Definition pausedWorld : World :=
  with_vars (set_pausedRemainingMs (Int 30000))
    (loadPage 1000 ∅ fullPage true true true).

(** ** Muting *)

(** Two uses of a mute control [f] on [w]: the first flips the flag and
    stores it, touching neither the timing variables nor the scheduler; the
    second brings the variables back and stores the original flag.  No other
    key of the store changes. *)
Definition mute_roundtrip (f : M unit) (w : World) : Prop :=
  exists w1 w2,
    f w = Ok tt w1 /\ f w1 = Ok tt w2 /\
    vars w1 = set_muted (negb (muted (vars w))) (vars w) /\
    localStorage w1 !! "shanti_muted"
      = Some (bool_toString (negb (muted (vars w)))) /\
    timers w1 = timers w /\ effects w1 = effects w /\
    vars w2 = vars w /\
    localStorage w2 !! "shanti_muted" = Some (bool_toString (muted (vars w))) /\
    timers w2 = timers w /\ effects w2 = effects w /\
    forall k, k <> "shanti_muted" ->
              localStorage w2 !! k = localStorage w !! k.

(** ** Runs within the exact range *)

(** A stored number that the model reads as the script does: its
    characters are ASCII and it reads as a safe integer, or as none. *)
Definition safe_value (o : option string) : Prop :=
  match o with
  | Some s => ascii_only s = true /\ safe_num (parseInt s)
  | None => True
  end.

Definition safe_store (store : gmap string string) : Prop :=
  safe_value (store !! "shanti_session_count") /\
  safe_value (store !! "shanti_paused_remaining").

Definition count_safe (w : World) : Prop := safe_num (sessionCount (vars w)).

(** The states reached from a page load by runs on which the count is a
    safe integer (or NaN) after the load and after every operation. *)
Inductive reachable_safe (P : program) (w0 : World) : World -> Prop :=
  | safe_init :
      count_safe (final (p_init P w0)) ->
      reachable_safe P w0 (final (p_init P w0))
  | safe_step (w : World) (o : op) :
      reachable_safe P w0 w -> count_safe (step P o w) ->
      reachable_safe P w0 (step P o w).

(** ** The store as a mirror of the engine *)

(** What the store holds agrees with the variables: the mute flag and the
    count are the ones a page load would restore; while running, "1" is
    stored under [shanti_running] and a page load would restore a full
    cycle's remaining time; while paused, "0" is stored and a page load
    would restore [pausedRemainingMs]. *)
Definition persist_inv (w : World) : Prop :=
  muted (vars w) = str_is (localStorage w !! "shanti_muted") "true" /\
  sessionCount (vars w) = restoredCount (localStorage w) /\
  if running (vars w) then
    localStorage w !! "shanti_running" = Some "1" /\
    restoredRemaining (localStorage w) = Int cycleDurationMs
  else
    localStorage w !! "shanti_running" = Some "0" /\
    pausedRemainingMs (vars w) = restoredRemaining (localStorage w).

Definition full_inv (w : World) : Prop := sched_inv w /\ persist_inv w.

(** A running cycle ends at most one cycle duration from now. *)
Definition cycle_bound (w : World) : Prop :=
  running (vars w) = true ->
  exists e, endTimeMs (vars w) = Int e /\ e <= clock w + cycleDurationMs.

(** Moreover the stored remaining time is a safe value, and so is the
    stored count whenever the count is. *)
Definition safe_inv (w : World) : Prop :=
  full_inv w /\ cycle_bound w /\
  safe_value (localStorage w !! "shanti_paused_remaining") /\
  (count_safe w -> safe_value (localStorage w !! "shanti_session_count")).

(** What a reload of [script.js] keeps of the state [w]. *)
Definition script_reload_post (w w' : World) : Prop :=
  phase_of w' = phase_of w /\
  muted (vars w') = muted (vars w) /\
  sessionCount (vars w') = sessionCount (vars w) /\
  match phase_of w with
  | Paused =>
      pausedRemainingMs (vars w') = pausedRemainingMs (vars w) /\
      timers w' = [] /\ localStorage w' = localStorage w
  | Running =>
      endTimeMs (vars w') = Int (clock w + cycleDurationMs) /\
      timers w' = [1%nat]
  end.

(** What a reload of the guarded variant makes of the state [w]. *)
Definition guarded_reload_post (w w' : World) : Prop :=
  phase_of w' = Running /\
  muted (vars w') = muted (vars w) /\
  sessionCount (vars w') = sessionCount (vars w) /\
  timers w' = [1%nat] /\
  localStorage w' !! "shanti_running" = Some "1" /\
  match phase_of w with
  | Paused =>
      endTimeMs (vars w') =
        Int (clock w + resumeLeft (pausedRemainingMs (vars w)))
  | Running =>
      endTimeMs (vars w') = Int (clock w + cycleDurationMs)
  end.

(** An operation either leaves the count as it is, or it is a round of
    the scheduler on a running engine that finishes one cycle. *)
Definition count_step (P : program) (o : op) (w : World) : Prop :=
  sessionCount (vars (step P o w)) = sessionCount (vars w) \/
  (o = OpTick /\ phase_of w = Running /\
   sessionCount (vars (step P o w)) = js_incr (sessionCount (vars w)) /\
   finishCount (step P o w) = S (finishCount w)).


(* ================================================================= *)
(** * Properties *)

(** ** The model at work *)

Example parseInt_samples :
  parseInt "30000" = Int 30000 /\ parseInt "  -12px" = Int (-12) /\
  parseInt "007" = Int 7 /\ parseInt "abc" = NaN /\ parseInt "" = NaN /\
  parseInt "-" = NaN /\ toString (Int (-5)) = "-5" /\ toString NaN = "NaN".
Proof. repeat split; reflexivity. Qed.

Example msToMMSS_samples :
  msToMMSS (Int 89001) = "01:30" /\ msToMMSS (Int 6000000) = "100:00" /\
  msToMMSS NaN = "NaN:NaN".
Proof. repeat split; reflexivity. Qed.

(** On a page without elements [script.js] stops at its first element
    access, with [running] already set; the guarded variant starts. *)
Example startTimer_without_elements :
  Script.startTimer (loadPage 1000 ∅ emptyPage true true true) =
    Throw (with_vars (set_running true)
             (loadPage 1000 ∅ emptyPage true true true)) /\
  phase_of (final (Guarded.startTimer
                     (loadPage 1000 ∅ emptyPage true true true))) = Running.
Proof. split; reflexivity. Qed.

(** A 61-second run of [script.js] from an empty store: load, wait a
    minute, let the scheduler fire, wait a second, pause. *)
Example one_minute_run :
  let w := step script OpPause
             (step script (OpWait 1000)
                (step script OpTick
                   (step script (OpWait 60000)
                      (final (Script.onDOMContentLoaded
                                (loadPage 5000 ∅ fullPage true true true))))))
  in
  sessionCount (vars w) = Int 1 /\
  pausedRemainingMs (vars w) = Int 59000 /\
  effects w = [Announce "Minute complete"; Chime; Vibrate [50; 30; 50]] /\
  timers w = [] /\
  timerText w = Some "00:00" /\
  localStorage w !! "shanti_session_count" = Some "1" /\
  localStorage w !! "shanti_paused_remaining" = Some "59000" /\
  localStorage w !! "shanti_running" = Some "0".
Proof. vm_compute. repeat split. Qed.

(** ** Numbers and strings *)

Lemma digits_prefix_string_of_uint (d : Decimal.uint) :
  digits_prefix (NilEmpty.string_of_uint d) = d.
Proof. induction d; cbn; congruence. Qed.

Lemma parse_digits_string_of_uint (neg : bool) (d : Decimal.uint) :
  d <> Decimal.Nil ->
  parse_digits neg (NilEmpty.string_of_uint d) =
  Int (if neg then - Z.of_uint d else Z.of_uint d).
Proof.
  intros Hd. unfold parse_digits. rewrite digits_prefix_string_of_uint.
  destruct d; congruence.
Qed.

Lemma parseInt_digits (d : Decimal.uint) :
  d <> Decimal.Nil ->
  parseInt (NilEmpty.string_of_uint d) = Int (Z.of_uint d).
Proof.
  intros Hd. rewrite <- (parse_digits_string_of_uint false d Hd).
  destruct d; try congruence; reflexivity.
Qed.

Lemma Z_of_uint_to_uint (p : positive) : Z.of_uint (Pos.to_uint p) = Z.pos p.
Proof. unfold Z.of_uint. now rewrite DecimalPos.Unsigned.of_to. Qed.

(** Reading back a printed integer gives the integer. *)
Lemma parseInt_toString (z : Z) : parseInt (Z_toString z) = Int z.
Proof.
  unfold Z_toString. destruct z as [|p|p]; cbn [Z.to_int].
  - reflexivity.
  - pose proof (DecimalPos.Unsigned.to_uint_nonnil p) as Hn.
    cbn [NilZero.string_of_int]. unfold NilZero.string_of_uint.
    destruct (Pos.to_uint p) eqn:E; try congruence;
      rewrite <- E in *; rewrite parseInt_digits by assumption;
      now rewrite Z_of_uint_to_uint.
  - pose proof (DecimalPos.Unsigned.to_uint_nonnil p) as Hn.
    cbn [NilZero.string_of_int]. unfold NilZero.string_of_uint.
    destruct (Pos.to_uint p) eqn:E; try congruence; rewrite <- E in *;
      change (parse_digits true (NilEmpty.string_of_uint (Pos.to_uint p))
              = Int (Z.neg p));
      rewrite parse_digits_string_of_uint by assumption;
      now rewrite Z_of_uint_to_uint.
Qed.

Lemma Z_toString_inj (a b : Z) : Z_toString a = Z_toString b -> a = b.
Proof.
  intros H. apply (f_equal parseInt) in H.
  rewrite !parseInt_toString in H. congruence.
Qed.

Lemma Z_toString_length_small (z : Z) :
  0 <= z < 10 -> String.length (Z_toString z) = 1%nat.
Proof.
  intros H.
  assert (z = 0 \/ z = 1 \/ z = 2 \/ z = 3 \/ z = 4 \/ z = 5 \/ z = 6 \/
          z = 7 \/ z = 8 \/ z = 9) as Hz by lia.
  repeat (destruct Hz as [-> | Hz]; [reflexivity |]). now subst.
Qed.

Lemma parseInt_one_char (c : ascii) (z : Z) :
  parseInt (String c EmptyString) = Int z -> z < 10.
Proof.
  destruct c as [[] [] [] [] [] [] [] []]; vm_compute; intros H;
    try discriminate; injection H as <-; reflexivity.
Qed.

Lemma Z_toString_length_large (z : Z) :
  10 <= z -> (2 <= String.length (Z_toString z))%nat.
Proof.
  intros Hz. pose proof (parseInt_toString z) as Hp.
  destruct (Z_toString z) as [|c [|c' r]]; cbn.
  - discriminate.
  - apply parseInt_one_char in Hp. lia.
  - lia.
Qed.

(** [padStart(2, '0')] on a printed non-negative integer is [pad2]. *)
Lemma padStart_pad2 (z : Z) :
  0 <= z -> padStart 2 "0" (Z_toString z) = pad2 z.
Proof.
  intros Hz. unfold padStart, pad2. destruct (Z.ltb_spec z 10) as [Hlt | Hge].
  - rewrite Z_toString_length_small by lia. reflexivity.
  - pose proof (Z_toString_length_large z Hge) as Hl.
    replace (2 - String.length (Z_toString z))%nat with 0%nat by lia.
    reflexivity.
Qed.

Lemma pad2_zero (z : Z) : 0 <= z -> pad2 z = "00" -> z = 0.
Proof.
  intros Hz. unfold pad2. destruct (Z.ltb_spec z 10) as [Hlt | Hge]; intros H.
  - injection H as H. now apply Z_toString_inj.
  - apply (f_equal parseInt) in H. rewrite parseInt_toString in H.
    vm_compute in H. congruence.
Qed.

Lemma pad2_seconds_length (z : Z) :
  0 <= z < 60 -> String.length (pad2 z) = 2%nat.
Proof.
  intros Hz. rewrite <- (Z2Nat.id z) by lia.
  assert (Z.to_nat z < 60)%nat as Hn by lia.
  clear Hz. generalize dependent (Z.to_nat z). clear z. intros n Hn.
  do 60 (destruct n as [|n]; [reflexivity |]). lia.
Qed.

Lemma string_cons_inj (a b : ascii) (s t : string) :
  String a s = String b t -> a = b /\ s = t.
Proof. intros H; injection H; auto. Qed.

Lemma split_at_colon (a b : string) :
  String.length b = 2%nat ->
  (a ++ ":" ++ b)%string = "00:00" -> a = "00" /\ b = "00".
Proof.
  intros Hb H.
  destruct b as [|b1 [|b2 [|b3 b]]]; try discriminate Hb.
  destruct a as [|a1 [|a2 [|a3 a]]];
    cbv [String.append] in H; fold String.append in H;
    repeat (apply string_cons_inj in H; destruct H as [? H]);
    subst; try discriminate.
  - now split.
  - destruct a as [|a4 [|a5 a]];
      cbv [String.append] in H; fold String.append in H;
      repeat (apply string_cons_inj in H; destruct H as [? H]);
      try discriminate.
    destruct a; discriminate.
Qed.

(** ** [msToMMSS] *)

Lemma totalSeconds_div (ms : Z) :
  totalSeconds ms = - ((- Z.max 0 ms) / 1000).
Proof.
  unfold totalSeconds, Qceiling, Qfloor. cbn.
  now rewrite Z.mul_1_r.
Qed.

Lemma totalSeconds_ceiling (ms : Z) :
  1000 * (totalSeconds ms - 1) < Z.max 0 ms <= 1000 * totalSeconds ms.
Proof.
  rewrite totalSeconds_div.
  pose proof (Z.div_mod (- Z.max 0 ms) 1000 ltac:(lia)) as Hd.
  pose proof (Z.mod_pos_bound (- Z.max 0 ms) 1000 ltac:(lia)) as Hm.
  lia.
Qed.

Lemma totalSeconds_nonneg (ms : Z) : 0 <= totalSeconds ms.
Proof. pose proof (totalSeconds_ceiling ms). lia. Qed.

Lemma minutes_of_div (ts : Z) : minutes_of ts = ts / 60.
Proof. unfold minutes_of. symmetry. apply Zdiv_Qdiv. Qed.

Lemma seconds_of_mod (ts : Z) : 0 <= ts -> seconds_of ts = ts mod 60.
Proof. intros H. unfold seconds_of. apply Z.rem_mod_nonneg; lia. Qed.

Lemma msToMMSS_pad2 (ms : Z) :
  msToMMSS (Int ms) =
  (pad2 (totalSeconds ms / 60) ++ ":" ++ pad2 (totalSeconds ms mod 60))%string.
Proof.
  pose proof (totalSeconds_nonneg ms) as Hts.
  unfold msToMMSS. cbv zeta.
  rewrite minutes_of_div, seconds_of_mod by assumption.
  rewrite !padStart_pad2; [reflexivity | |].
  - apply Z.mod_pos_bound. lia.
  - apply Z.div_pos; lia.
Qed.

(** C6.  For a safe integer [ms] (at most 2^53 - 1 in magnitude),
    [msToMMSS ms] shows [ts / 60] and [ts mod 60], each zero-padded to two
    digits, where [ts] is the ceiling of [max 0 ms / 1000]: the least
    integer with [max 0 ms <= 1000 * ts].  It gives "00:00" at 0 and at -5,
    "00:01" at 1 and "01:00" at 60000, and from 1 ms on it never shows less
    than one second. *)
Theorem msToMMSS_spec (ms : Z) :
  safe_int ms ->
  let ts := totalSeconds ms in
  1000 * (ts - 1) < Z.max 0 ms <= 1000 * ts /\
  msToMMSS (Int ms) = (pad2 (ts / 60) ++ ":" ++ pad2 (ts mod 60))%string /\
  msToMMSS (Int 0) = "00:00" /\
  msToMMSS (Int 1) = "00:01" /\
  msToMMSS (Int 60000) = "01:00" /\
  msToMMSS (Int (-5)) = "00:00" /\
  (1 <= ms -> 1 <= ts /\ msToMMSS (Int ms) <> "00:00").
Proof.
  intros _ ts. pose proof (totalSeconds_ceiling ms) as Hc. fold ts in Hc.
  split; [exact Hc |]. split; [apply msToMMSS_pad2 |].
  do 4 (split; [reflexivity |]).
  intros Hms. assert (1 <= ts) as Hts by lia. split; [exact Hts |].
  rewrite msToMMSS_pad2. fold ts. intros Heq.
  pose proof (Z.mod_pos_bound ts 60 ltac:(lia)) as Hs.
  apply split_at_colon in Heq; [| now apply pad2_seconds_length].
  destruct Heq as [Hm Hsec].
  apply pad2_zero in Hm; [| apply Z.div_pos; lia].
  apply pad2_zero in Hsec; [| lia].
  pose proof (Z.div_mod ts 60 ltac:(lia)). lia.
Qed.

Lemma msToMMSS_spec_witness :
  1 <= totalSeconds 59001 /\ msToMMSS (Int 59001) <> "00:00".
Proof.
  apply (msToMMSS_spec 59001); [unfold safe_int, MAX_SAFE_INTEGER |]; lia.
Defined.

(** ** Symbolic execution of handlers *)

#[global] Arguments parseInt : simpl never.
#[global] Arguments msToMMSS : simpl never.
#[global] Arguments toString : simpl never.
#[global] Arguments Z_toString : simpl never.

Ltac storage :=
  repeat first
    [ rewrite lookup_delete_eq | rewrite lookup_insert_eq
    | rewrite lookup_delete_ne by discriminate
    | rewrite lookup_insert_ne by discriminate ];
  try reflexivity; try assumption.

Ltac norm_duration :=
  unfold cycleDurationMs, DURATION in *;
  change (60 * 1000) with 60000 in *.

Ltac unfold_prims :=
  unfold announceAndCount, playChime, triggerVibration, initAudio, when,
    ifEl, setTextContent, setAriaPressed, setEndFromNow, setInterval,
    clearInterval, setItem, removeItem, getItem, dateNow, assign, var,
    modify, gets, mbind, M_bind, mret, M_ret in *;
  norm_duration.

Ltac destruct_world w :=
  destruct w as [[? ? ? ? ? ? ?] ? ? [? ? ? ? ? ?] ? ? ? ? ? ?]; cbn in *.

Ltac split_if :=
  match goal with
  | |- context [if ?b then _ else _] => destruct b eqn:?
  end.

Ltac exec := unfold_prims; cbn; repeat (split_if; cbn).

Ltac done_ok := eexists; split; [reflexivity |].

Ltac env_tac :=
  unfold frame, same_env, same_elements; cbn;
  repeat split; try reflexivity; try (intros []; reflexivity).

Lemma bind_ok {A B : Type} (m : M A) (f : A -> M B) (w w1 : World) (a : A) :
  m w = Ok a w1 -> (m ≫= f) w = f a w1.
Proof. intros H. unfold mbind, M_bind. now rewrite H. Qed.

Lemma bind_gets {A B : Type} (g : World -> A) (f : A -> M B) (w : World) :
  (gets g ≫= f) w = f (g w) w.
Proof. reflexivity. Qed.

Lemma same_elements_refl (pg : Page) : same_elements pg pg.
Proof. intros x. reflexivity. Qed.

Lemma same_elements_trans (a b c : Page) :
  same_elements a b -> same_elements b c -> same_elements a c.
Proof. intros H1 H2 x. now rewrite H2, H1. Qed.

Lemma page_complete_has (pg : Page) :
  page_complete pg <-> forall x, has x pg = true.
Proof.
  unfold page_complete, has. split.
  - intros (Ht & Hg & Hr & Hm & Hb) [];
      cbn; [destruct Ht as [? ->] | destruct Hg as [? ->]
           | destruct Hr as [? ->] | destruct Hm as [? ->]
           | destruct Hb as [? ->]]; reflexivity.
  - intros H.
    pose proof (H TimerElement) as Ht. pose proof (H ToggleBtn) as Hg.
    pose proof (H RestartBtn) as Hr. pose proof (H MuteBtn) as Hm.
    pose proof (H SessionBadge) as Hb. cbn in *.
    repeat split; [destruct (timerElement pg) | destruct (toggleBtn pg)
                  | destruct (restartBtn pg) | destruct (muteBtn pg)
                  | destruct (sessionBadge pg)]; eauto; discriminate.
Qed.

Lemma page_complete_same (pg pg' : Page) :
  same_elements pg pg' -> page_complete pg -> page_complete pg'.
Proof.
  rewrite !page_complete_has. intros Hs H x. now rewrite Hs.
Qed.

Lemma frame_refl (w : World) : frame w w.
Proof. env_tac. Qed.

Lemma frame_trans (a b c : World) : frame a b -> frame b c -> frame a c.
Proof.
  unfold frame, same_env.
  intros ((? & ? & ? & ? & ?) & ? & ? & ? & ?)
         ((? & ? & ? & ? & ?) & ? & ? & ? & ?).
  repeat split; try congruence; try (eapply same_elements_trans; eauto).
Qed.

Lemma js_between (p : jsnum) :
  js_gt p (Int 0) && js_lt p (Int 60000) = true <->
  exists z, p = Int z /\ 0 < z < 60000.
Proof.
  destruct p as [z|]; cbn.
  - rewrite andb_true_iff, !Z.ltb_lt. split.
    + intros [? ?]. exists z. auto.
    + intros (z' & [= <-] & ?). lia.
  - split; [discriminate | intros (z & [=] & _)].
Qed.

Lemma resumeLeft_bounds (p : jsnum) : 0 < resumeLeft p <= cycleDurationMs.
Proof.
  unfold resumeLeft, cycleDurationMs, DURATION. destruct p as [z|]; [| lia].
  destruct (Z.ltb_spec 0 z), (Z.ltb_spec z (60 * 1000)); cbn; lia.
Qed.

(** ** [startTimer] *)

Lemma Script_startTimer_running (w : World) :
  running (vars w) = true -> Script.startTimer w = Ok tt w.
Proof. intros H. unfold Script.startTimer. unfold_prims. now rewrite H. Qed.

Lemma Guarded_startTimer_running (w : World) :
  running (vars w) = true -> Guarded.startTimer w = Ok tt w.
Proof. intros H. unfold Guarded.startTimer. unfold_prims. now rewrite H. Qed.

Lemma start_post_intro (w w' : World) :
  running (vars w') = true ->
  endTimeMs (vars w') =
    (if js_gt (pausedRemainingMs (vars w)) (Int 0) &&
        js_lt (pausedRemainingMs (vars w)) (Int 60000)
     then js_add (Int (clock w)) (pausedRemainingMs (vars w))
     else Int (clock w + 60000)) ->
  localStorage w' =
    delete "shanti_paused_remaining"
      (<["shanti_running" := "1"]> (localStorage w)) ->
  intervalId (vars w') = Some (nextTimer w) ->
  timers w' = (cleared w ++ [nextTimer w])%list ->
  nextTimer w' = S (nextTimer w) ->
  pausedRemainingMs (vars w') = pausedRemainingMs (vars w) ->
  muted (vars w') = muted (vars w) ->
  sessionCount (vars w') = sessionCount (vars w) ->
  effects w' = effects w ->
  same_env w w' ->
  start_post w w'.
Proof.
  intros Hr He Hs Hi Ht Hn Hp Hm Hc Hf Henv. unfold start_post.
  repeat split; try assumption; try apply Henv.
  - intros p Hp' Hb. rewrite He.
    assert (js_gt (pausedRemainingMs (vars w)) (Int 0) &&
            js_lt (pausedRemainingMs (vars w)) (Int 60000) = true)
      as -> by (apply js_between; eauto).
    now rewrite Hp'.
  - intros Hn'. rewrite He.
    destruct (js_gt _ _ && js_lt _ _) eqn:E; [| reflexivity].
    apply js_between in E as (z & Hz & Hb). now destruct (Hn' z Hz).
Qed.

(** The end of the started cycle, in one formula. *)
Lemma start_post_end (w w' : World) :
  start_post w w' ->
  endTimeMs (vars w') =
    Int (clock w + resumeLeft (pausedRemainingMs (vars w))).
Proof.
  intros (_ & Hres & Hfresh & _). unfold resumeLeft.
  destruct (pausedRemainingMs (vars w)) as [z|] eqn:Ep.
  - destruct (Z.ltb_spec 0 z), (Z.ltb_spec z cycleDurationMs); cbn;
      first [ apply Hres; [reflexivity | lia]
            | apply Hfresh; intros p [= <-]; lia ].
  - apply Hfresh. intros p [=].
Qed.

Ltac start_post_tac :=
  apply start_post_intro; cbn; norm_duration;
  try match goal with H : (_ && _)%bool = _ |- _ => rewrite H end;
  try reflexivity; env_tac.

Lemma Script_startTimer_paused (w : World) :
  running (vars w) = false -> is_Some (toggleBtn (page w)) ->
  exists w', Script.startTimer w = Ok tt w' /\ start_post w w'.
Proof.
  destruct_world w. intros -> [e ->].
  unfold Script.startTimer.
  destruct intervalId0 as [[|i]|]; exec; done_ok; start_post_tac.
Qed.

Lemma Guarded_startTimer_paused (w : World) :
  running (vars w) = false ->
  exists w', Guarded.startTimer w = Ok tt w' /\ start_post w w'.
Proof.
  destruct_world w. intros ->.
  unfold Guarded.startTimer.
  destruct intervalId0 as [[|i]|], toggleBtn0; exec; done_ok; start_post_tac.
Qed.

(** C2.  [startTimer] does nothing when the engine is running.  Otherwise it
    makes the engine running, sets [endTimeMs] to now + [pausedRemainingMs]
    when that value is strictly between 0 and the cycle duration and to
    now + the cycle duration otherwise, stores "1" under [shanti_running]
    and removes [shanti_paused_remaining].  [script.js] needs its toggle
    button for that; the guarded variant does not. *)
Theorem startTimer_spec (w : World) :
  (running (vars w) = true ->
   Script.startTimer w = Ok tt w /\ Guarded.startTimer w = Ok tt w) /\
  (running (vars w) = false ->
   (is_Some (toggleBtn (page w)) ->
    exists w', Script.startTimer w = Ok tt w' /\ start_post w w') /\
   (exists w', Guarded.startTimer w = Ok tt w' /\ start_post w w')).
Proof.
  split.
  - intros H. split.
    + now apply Script_startTimer_running.
    + now apply Guarded_startTimer_running.
  - intros H. split.
    + intros Ht. now apply Script_startTimer_paused.
    + now apply Guarded_startTimer_paused.
Qed.

Lemma startTimer_spec_witness :
  exists w', Script.startTimer (loadPage 1000 ∅ fullPage true true true)
             = Ok tt w' /\
             start_post (loadPage 1000 ∅ fullPage true true true) w'.
Proof.
  refine (proj1 (proj2 (startTimer_spec
                          (loadPage 1000 ∅ fullPage true true true)) _) _).
  - reflexivity.
  - eexists. reflexivity.
Defined.

(** ** [pauseTimer] *)

Lemma remove_id_not_In (i : nat) (l : list nat) : ~ In i (remove_id i l).
Proof.
  unfold remove_id. rewrite List.filter_In. intros [_ H].
  now rewrite Nat.eqb_refl in H.
Qed.

Lemma Script_pauseTimer_paused (w : World) :
  running (vars w) = false -> Script.pauseTimer w = Ok tt w.
Proof. intros H. unfold Script.pauseTimer. unfold_prims. now rewrite H. Qed.

Lemma Guarded_pauseTimer_paused (w : World) :
  running (vars w) = false -> Guarded.pauseTimer w = Ok tt w.
Proof. intros H. unfold Guarded.pauseTimer. unfold_prims. now rewrite H. Qed.

Ltac pause_post_tac :=
  unfold pause_post; cbn;
  repeat split; try (intros ? ->; reflexivity);
  try (intros ? [= <-]; apply remove_id_not_In); try discriminate;
  try (intros []; reflexivity).

Lemma Script_pauseTimer_running (w : World) :
  running (vars w) = true -> is_Some (toggleBtn (page w)) ->
  exists w', Script.pauseTimer w = Ok tt w' /\ pause_post w w'.
Proof.
  destruct_world w. intros -> [e ->].
  unfold Script.pauseTimer.
  destruct intervalId0 as [i|]; exec; done_ok; pause_post_tac.
Qed.

Lemma Guarded_pauseTimer_running (w : World) :
  running (vars w) = true ->
  exists w', Guarded.pauseTimer w = Ok tt w' /\ pause_post w w'.
Proof.
  destruct_world w. intros ->.
  unfold Guarded.pauseTimer.
  destruct intervalId0 as [i|], toggleBtn0; exec; done_ok; pause_post_tac.
Qed.

(** C3.  [pauseTimer] does nothing when the engine is paused.  Otherwise it
    clears the scheduled interval, sets [pausedRemainingMs] to
    max(0, endTimeMs - now), makes the engine paused, and stores "0" under
    [shanti_running] and the new remaining time under
    [shanti_paused_remaining]. *)
Theorem pauseTimer_spec (w : World) :
  (running (vars w) = false ->
   Script.pauseTimer w = Ok tt w /\ Guarded.pauseTimer w = Ok tt w) /\
  (running (vars w) = true ->
   (is_Some (toggleBtn (page w)) ->
    exists w', Script.pauseTimer w = Ok tt w' /\ pause_post w w') /\
   (exists w', Guarded.pauseTimer w = Ok tt w' /\ pause_post w w')).
Proof.
  split.
  - intros H. split.
    + now apply Script_pauseTimer_paused.
    + now apply Guarded_pauseTimer_paused.
  - intros H. split.
    + intros Ht. now apply Script_pauseTimer_running.
    + now apply Guarded_pauseTimer_running.
Qed.

Lemma pauseTimer_spec_witness :
  exists w', Script.pauseTimer runningWorld = Ok tt w' /\
             pause_post runningWorld w'.
Proof.
  refine (proj1 (proj2 (pauseTimer_spec runningWorld) _) _).
  - reflexivity.
  - eexists. reflexivity.
Defined.

(** ** [tick] and the finish transition *)

Lemma full_cycle_left (c : Z) : c + 60000 - c = 60000.
Proof. lia. Qed.

Ltac finish_post_tac :=
  unfold finish_post, finishEffects, timerText; cbn;
  rewrite ?full_cycle_left;
  repeat split;
  try (intros ? ->; reflexivity);
  try (rewrite <- ?app_assoc; reflexivity);
  try (intros []; reflexivity).

Lemma Script_tick_finish (w : World) (e : Z) :
  endTimeMs (vars w) = Int e -> e - clock w <= 0 ->
  is_Some (timerElement (page w)) -> is_Some (sessionBadge (page w)) ->
  exists w', Script.tick w = Ok tt w' /\ finish_post w w'.
Proof.
  destruct_world w. intros -> He [t ->] [b ->].
  unfold Script.tick, Script.onFinish. unfold_prims. cbn.
  apply Z.leb_le in He. rewrite He.
  destruct muted0, audioContext0, canVibrate0; cbn; done_ok; finish_post_tac.
Qed.

Lemma Guarded_tick_finish (w : World) (e : Z) :
  endTimeMs (vars w) = Int e -> e - clock w <= 0 ->
  is_Some (timerElement (page w)) ->
  exists w', Guarded.tick w = Ok tt w' /\ finish_post w w'.
Proof.
  destruct_world w. intros -> He [t ->].
  unfold Guarded.tick, Guarded.onFinish. unfold_prims. cbn.
  apply Z.leb_le in He. rewrite He.
  destruct muted0, audioContext0, canVibrate0, sessionBadge0; cbn; done_ok;
    finish_post_tac.
Qed.

(** C1.  When [tick] runs in the running phase with [endTimeMs - now <= 0],
    the finish transition takes place: the display shows "00:00", the
    completion is announced (with chime and vibration unless muted or
    unsupported), [sessionCount] goes up by exactly one and is stored, and
    [endTimeMs] becomes now + the cycle duration, so the engine is running
    the next cycle with a full duration left.  The page must have its timer
    element (and, for [script.js], its session badge), and the count must
    be a safe integer (or NaN, which stays NaN): a count of 2^53 is not
    incremented. *)
Theorem tick_finish_spec (w : World) (e : Z) :
  phase_of w = Running ->
  endTimeMs (vars w) = Int e -> e - clock w <= 0 ->
  safe_num (sessionCount (vars w)) ->
  is_Some (timerElement (page w)) ->
  (is_Some (sessionBadge (page w)) ->
   exists w', Script.tick w = Ok tt w' /\ finish_post w w' /\
              phase_of w' = Running) /\
  (exists w', Guarded.tick w = Ok tt w' /\ finish_post w w' /\
              phase_of w' = Running).
Proof.
  intros Hph He Hle _ Ht.
  assert (forall w', finish_post w w' -> phase_of w' = Running) as Hrun.
  { intros w' Hp. unfold phase_of in *.
    destruct Hp as (_ & _ & _ & _ & _ & _ & _ & -> & _). exact Hph. }
  split.
  - intros Hb. destruct (Script_tick_finish w e He Hle Ht Hb) as (w' & ? & ?).
    exists w'. auto.
  - destruct (Guarded_tick_finish w e He Hle Ht) as (w' & ? & ?).
    exists w'. auto.
Qed.

Lemma tick_finish_spec_witness :
  exists w', Script.tick expiredWorld = Ok tt w' /\
             finish_post expiredWorld w' /\ phase_of w' = Running.
Proof.
  refine (proj1 (tick_finish_spec expiredWorld 500 _ _ _ _ _) _);
    first [ reflexivity | cbn; lia | eexists; reflexivity
          | cbn; unfold safe_int, MAX_SAFE_INTEGER; lia ].
Defined.

(** While the cycle has time left, a tick only refreshes the display. *)
Lemma Script_tick_idle (w : World) (e : Z) :
  endTimeMs (vars w) = Int e -> 0 < e - clock w ->
  is_Some (timerElement (page w)) ->
  exists w', Script.tick w = Ok tt w' /\ idle_post (e - clock w) w w'.
Proof.
  destruct_world w. intros -> He [t ->].
  unfold Script.tick. unfold_prims. cbn.
  apply Z.leb_gt in He. rewrite He. done_ok.
  unfold idle_post, timerText. cbn. repeat split; env_tac.
Qed.

Lemma Guarded_tick_idle (w : World) (e : Z) :
  endTimeMs (vars w) = Int e -> 0 < e - clock w ->
  exists w', Guarded.tick w = Ok tt w' /\ idle_post (e - clock w) w w'.
Proof.
  destruct_world w. intros -> He.
  unfold Guarded.tick. unfold_prims. cbn.
  apply Z.leb_gt in He. rewrite He.
  destruct timerElement0; done_ok;
    unfold idle_post, timerText; cbn; repeat split; env_tac.
Qed.

(** ** [restartTimer] *)

Ltac restart_post_tac :=
  unfold restart_post, timerText; cbn;
  repeat split; try discriminate; try reflexivity;
  try (intros []; reflexivity).

Lemma Script_restartTimer_ok (w : World) :
  is_Some (timerElement (page w)) ->
  exists w', Script.restartTimer w = Ok tt w' /\ restart_post w w'.
Proof.
  destruct_world w. intros [t ->].
  unfold Script.restartTimer, Script.tick. unfold_prims. cbn.
  destruct running0; cbn; rewrite ?full_cycle_left; cbn;
    done_ok; restart_post_tac.
Qed.

Lemma Guarded_restartTimer_ok (w : World) :
  exists w', Guarded.restartTimer w = Ok tt w' /\ restart_post w w'.
Proof.
  destruct_world w.
  unfold Guarded.restartTimer, Guarded.tick. unfold_prims. cbn.
  destruct running0, timerElement0; cbn; rewrite ?full_cycle_left; cbn;
    done_ok; restart_post_tac.
Qed.

(** C7.  [restartTimer] always sets [pausedRemainingMs] to the cycle
    duration and stores it under [shanti_paused_remaining].  When the engine
    is running it also sets [endTimeMs] to now + the cycle duration and the
    display shows the full minute at once; when it is paused the phase and
    [endTimeMs] stay as they are.  No finish transition takes place. *)
Theorem restartTimer_spec (w : World) :
  (is_Some (timerElement (page w)) ->
   exists w', Script.restartTimer w = Ok tt w' /\ restart_post w w') /\
  (exists w', Guarded.restartTimer w = Ok tt w' /\ restart_post w w').
Proof.
  split.
  - apply Script_restartTimer_ok.
  - apply Guarded_restartTimer_ok.
Qed.

Lemma restartTimer_spec_witness :
  exists w', Script.restartTimer runningWorld = Ok tt w' /\
             restart_post runningWorld w'.
Proof.
  apply (proj1 (restartTimer_spec runningWorld)). eexists. reflexivity.
Defined.

(** ** Page load *)

Lemma initAudio_ok (w : World) :
  initAudio w = Ok tt (with_vars (set_audioContext (webAudio w)) w).
Proof. reflexivity. Qed.

Lemma Script_playMusic_ok (w : World) :
  exists w', Script.playMusic w = Ok tt w' /\ vars w' = vars w /\ frame w w'.
Proof.
  destruct_world w. unfold Script.playMusic. unfold_prims. cbn.
  done_ok. split; [reflexivity |].
  destruct bgMusic0, autoplay0; env_tac.
Qed.

Lemma Script_restoreMute_ok (sm : option string) (w : World) :
  is_Some (muteBtn (page w)) ->
  exists w', Script.restoreMute sm w = Ok tt w' /\
             vars w' = set_muted (str_is sm "true" || muted (vars w)) (vars w) /\
             frame w w'.
Proof.
  destruct_world w. intros [b ->]. unfold Script.restoreMute.
  destruct (str_is sm "true"); unfold_prims; cbn; done_ok;
    (split; [reflexivity |]); destruct bgMusic0; env_tac.
Qed.

Lemma Script_restoreSessionCount_ok (sc : option string) (w : World) :
  is_Some (sessionBadge (page w)) ->
  exists w', Script.restoreSessionCount sc w = Ok tt w' /\
             vars w' =
               set_sessionCount
                 (if truthy_str sc then parseInt (default "" sc)
                  else sessionCount (vars w)) (vars w) /\
             frame w w'.
Proof.
  destruct_world w. intros [b ->]. unfold Script.restoreSessionCount.
  destruct (truthy_str sc); unfold_prims; cbn; done_ok;
    (split; [reflexivity |]); env_tac.
Qed.

Lemma Script_restorePausedRemaining_ok (sp : option string) (w : World) :
  is_Some (timerElement (page w)) ->
  exists w', Script.restorePausedRemaining sp w = Ok tt w' /\
             vars w' =
               set_pausedRemainingMs
                 (if truthy_str sp then parseInt (default "" sp)
                  else pausedRemainingMs (vars w)) (vars w) /\
             frame w w'.
Proof.
  destruct_world w. intros [b ->]. unfold Script.restorePausedRemaining.
  destruct (truthy_str sp); unfold_prims; cbn; done_ok;
    (split; [reflexivity |]); env_tac.
Qed.

Lemma Script_keepPaused_ok (w : World) :
  is_Some (toggleBtn (page w)) ->
  exists w', Script.keepPaused w = Ok tt w' /\
             vars w' = set_running false (vars w) /\ frame w w'.
Proof.
  destruct_world w. intros [b ->]. unfold Script.keepPaused.
  unfold_prims; cbn; done_ok; (split; [reflexivity |]); env_tac.
Qed.

Lemma Script_addEventListeners_ok (w : World) :
  page_complete (page w) -> Script.addEventListeners w = Ok tt w.
Proof.
  intros (_ & [? Hg] & [? Hr] & [? Hm] & _).
  unfold Script.addEventListeners, Script.addEventListener.
  unfold_prims. cbn. now rewrite Hg, Hr, Hm.
Qed.

Lemma frame_page_complete (w w' : World) :
  frame w w' -> page_complete (page w) -> page_complete (page w').
Proof.
  intros ((_ & _ & _ & _ & Hs) & _). now apply page_complete_same.
Qed.

Lemma Script_boot_restored now store pg audio vib auto :
  page_complete pg ->
  exists w3,
    Script.onDOMContentLoaded (loadPage now store pg audio vib auto) =
    ((if str_is (store !! "shanti_running") "1" then Script.startTimer
      else when (truthy_str (store !! "shanti_paused_remaining"))
             Script.keepPaused);;
     Script.addEventListeners;;
     when (negb (str_is (store !! "shanti_running") "0")) Script.startTimer)
      w3 /\
    vars w3 = restoredVars audio store /\
    frame (loadPage now store pg audio vib auto) w3.
Proof.
  intros Hpg. set (w0 := loadPage now store pg audio vib auto).
  unfold Script.onDOMContentLoaded.
  rewrite (bind_ok _ _ _ _ _ (initAudio_ok w0)).
  set (w1 := with_vars _ w0).
  assert (frame w0 w1) as F1 by env_tac.
  destruct (Script_playMusic_ok w1) as (w2 & E2 & V2 & F2).
  rewrite (bind_ok _ _ _ _ _ E2).
  pose proof (frame_trans _ _ _ F1 F2) as F02.
  assert (localStorage w2 = store) as Hst
    by (destruct F02 as (_ & -> & _); reflexivity).
  unfold getItem. rewrite !bind_gets, Hst.
  assert (page_complete (page w2)) as Hpg2
    by (eapply frame_page_complete; [exact F02 | exact Hpg]).
  destruct (Script_restoreMute_ok (store !! "shanti_muted") w2)
    as (w3 & E3 & V3 & F3); [apply Hpg2 |].
  rewrite (bind_ok _ _ _ _ _ E3).
  assert (page_complete (page w3)) as Hpg3
    by (eapply frame_page_complete; eauto).
  destruct (Script_restoreSessionCount_ok (store !! "shanti_session_count") w3)
    as (w4 & E4 & V4 & F4); [apply Hpg3 |].
  rewrite (bind_ok _ _ _ _ _ E4).
  assert (page_complete (page w4)) as Hpg4
    by (eapply frame_page_complete; eauto).
  destruct (Script_restorePausedRemaining_ok
              (store !! "shanti_paused_remaining") w4)
    as (w5 & E5 & V5 & F5); [apply Hpg4 |].
  rewrite (bind_ok _ _ _ _ _ E5).
  exists w5. split; [reflexivity |]. split.
  - rewrite V5, V4, V3, V2. unfold restoredVars, restoredRemaining,
      restoredCount. cbn. rewrite orb_false_r. reflexivity.
  - exact (frame_trans _ _ _ F02
             (frame_trans _ _ _ F3 (frame_trans _ _ _ F4 F5))).
Qed.

Lemma frame_loadPage now store pg audio vib auto (w : World) :
  frame (loadPage now store pg audio vib auto) w ->
  clock w = now /\ localStorage w = store /\ timers w = [] /\
  nextTimer w = 1%nat /\ effects w = [] /\ same_elements pg (page w).
Proof.
  intros ((Hc & _ & _ & _ & Hs) & Hst & Ht & Hn & He). cbn in *. auto 10.
Qed.

Lemma boot_post_started now store pg audio vib auto (w w' : World) :
  vars w = restoredVars audio store ->
  frame (loadPage now store pg audio vib auto) w ->
  start_post w w' ->
  boot_post true now store pg w'.
Proof.
  intros V F P. pose proof (start_post_end _ _ P) as Hend.
  apply frame_loadPage in F as (Hc & Hst & Ht & Hn & He & Hs).
  destruct P as (Hr & _ & _ & Hst' & Hi & Ht' & Hn' & Hp & Hm & Hcnt & He'
                 & (Hc' & _ & _ & _ & Hs')).
  unfold boot_post. rewrite Hm, Hcnt, Hp, Hend, Hi, Ht', Hn', Hst', He', Hc'.
  unfold cleared. rewrite V, Hc, Hst, Ht, Hn, He. cbn.
  repeat split; try reflexivity; try assumption.
  eapply same_elements_trans; eauto.
Qed.

Lemma boot_post_idle now store pg audio vib auto (w : World) :
  vars w = restoredVars audio store ->
  frame (loadPage now store pg audio vib auto) w ->
  boot_post false now store pg w.
Proof.
  intros V F.
  apply frame_loadPage in F as (Hc & Hst & Ht & Hn & He & Hs).
  unfold boot_post. rewrite V, Hc, Hst, Ht, Hn, He. cbn.
  repeat split; try reflexivity. exact Hs.
Qed.

Lemma str_is_excl (o : option string) :
  str_is o "1" = true -> str_is o "0" = false.
Proof.
  destruct o as [s|]; cbn; [| discriminate].
  intros H. apply String.eqb_eq in H. now subst.
Qed.

Lemma Script_maybe_keepPaused (b audio : bool) store (w : World) :
  is_Some (toggleBtn (page w)) ->
  vars w = restoredVars audio store ->
  exists w', when b Script.keepPaused w = Ok tt w' /\
             vars w' = restoredVars audio store /\ frame w w'.
Proof.
  intros Hg V. destruct b; cbn.
  - destruct (Script_keepPaused_ok w Hg) as (w' & E & V' & F).
    exists w'. split; [exact E |]. split; [| exact F].
    rewrite V', V. reflexivity.
  - exists w. split; [reflexivity |]. split; [exact V | apply frame_refl].
Qed.

(** What the [DOMContentLoaded] handler of [script.js] does on a complete
    page: it restores the saved state and starts the timer unless "0" is
    stored under [shanti_running]. *)
Lemma Script_boot now store pg audio vib auto :
  page_complete pg ->
  exists w',
    Script.onDOMContentLoaded (loadPage now store pg audio vib auto)
      = Ok tt w' /\
    boot_post (negb (str_is (store !! "shanti_running") "0")) now store pg w'.
Proof.
  intros Hpg.
  destruct (Script_boot_restored now store pg audio vib auto Hpg)
    as (w3 & -> & V & F).
  assert (page_complete (page w3)) as Hpg3
    by (eapply frame_page_complete; [exact F | exact Hpg]).
  assert (running (vars w3) = false) as Hrun by now rewrite V.
  destruct (str_is (store !! "shanti_running") "1") eqn:E1.
  - rewrite (str_is_excl _ E1).
    destruct (Script_startTimer_paused w3 Hrun) as (w4 & E4 & P4);
      [apply Hpg3 |].
    rewrite (bind_ok _ _ _ _ _ E4).
    assert (page_complete (page w4)) as Hpg4.
    { eapply page_complete_same; [| exact Hpg3]. apply P4. }
    rewrite (bind_ok _ _ _ _ _ (Script_addEventListeners_ok w4 Hpg4)).
    cbn [negb when]. rewrite Script_startTimer_running by apply P4.
    exists w4. split; [reflexivity |].
    eapply boot_post_started; eauto.
  - destruct (Script_maybe_keepPaused
                (truthy_str (store !! "shanti_paused_remaining"))
                audio store w3) as (w4 & E4 & V4 & F4);
      [apply Hpg3 | exact V |].
    rewrite (bind_ok _ _ _ _ _ E4).
    assert (page_complete (page w4)) as Hpg4
      by (eapply frame_page_complete; eauto).
    rewrite (bind_ok _ _ _ _ _ (Script_addEventListeners_ok w4 Hpg4)).
    pose proof (frame_trans _ _ _ F F4) as F04.
    destruct (str_is (store !! "shanti_running") "0"); cbn [negb when].
    + exists w4. split; [reflexivity |]. eapply boot_post_idle; eauto.
    + assert (running (vars w4) = false) as Hrun4 by now rewrite V4.
      destruct (Script_startTimer_paused w4 Hrun4) as (w5 & E5 & P5);
        [apply Hpg4 |].
      exists w5. split; [exact E5 |]. eapply boot_post_started; eauto.
Qed.

Lemma Guarded_playMusic_ok (w : World) :
  exists w', Guarded.playMusic w = Ok tt w' /\ vars w' = vars w /\ frame w w'.
Proof.
  destruct_world w. unfold Guarded.playMusic. unfold_prims. cbn.
  done_ok. split; [reflexivity |].
  destruct bgMusic0, autoplay0; env_tac.
Qed.

Lemma Guarded_setupMusic_ok (w : World) :
  exists w', Guarded.setupMusic w = Ok tt w' /\
             vars w' =
               (if bound (bgMusic (page w))
                then set_muted
                       (str_is (localStorage w !! "shanti_muted") "true")
                       (vars w)
                else vars w) /\
             frame w w'.
Proof.
  destruct_world w. unfold Guarded.setupMusic, Guarded.playMusic.
  destruct bgMusic0, muteBtn0, autoplay0,
    (str_is (localStorage0 !! "shanti_muted") "true") eqn:E;
    unfold_prims; cbn; rewrite ?E; cbn; done_ok;
    (split; [reflexivity |]); env_tac.
Qed.

Lemma Guarded_restoreMute_ok (sm : option string) (w : World) :
  exists w', Guarded.restoreMute sm w = Ok tt w' /\
             vars w' = set_muted (str_is sm "true" || muted (vars w)) (vars w) /\
             frame w w'.
Proof.
  destruct_world w. unfold Guarded.restoreMute.
  destruct (str_is sm "true"), muteBtn0; unfold_prims; cbn; done_ok;
    (split; [reflexivity |]); env_tac.
Qed.

Lemma Guarded_restoreSessionCount_ok (sc : option string) (w : World) :
  exists w', Guarded.restoreSessionCount sc w = Ok tt w' /\
             vars w' =
               set_sessionCount
                 (if truthy_str sc then parseInt (default "" sc)
                  else sessionCount (vars w)) (vars w) /\
             frame w w'.
Proof.
  destruct_world w. unfold Guarded.restoreSessionCount.
  destruct (truthy_str sc), sessionBadge0; unfold_prims; cbn; done_ok;
    (split; [reflexivity |]); env_tac.
Qed.

Lemma Guarded_restorePausedRemaining_ok (sp : option string) (w : World) :
  exists w', Guarded.restorePausedRemaining sp w = Ok tt w' /\
             vars w' =
               set_pausedRemainingMs
                 (if truthy_str sp then parseInt (default "" sp)
                  else pausedRemainingMs (vars w)) (vars w) /\
             frame w w'.
Proof.
  destruct_world w. unfold Guarded.restorePausedRemaining.
  destruct (truthy_str sp), timerElement0; unfold_prims; cbn; done_ok;
    (split; [reflexivity |]); env_tac.
Qed.

Lemma Guarded_startFresh_ok (w : World) :
  exists w', Guarded.startFresh w = Ok tt w' /\ start_post w w'.
Proof.
  destruct_world w.
  unfold Guarded.startFresh, Guarded.startTimer.
  destruct intervalId0 as [[|i]|], toggleBtn0; exec; done_ok; start_post_tac.
Qed.

Lemma Guarded_boot_restored now store pg audio vib auto :
  exists w3,
    Guarded.initApp (loadPage now store pg audio vib auto) =
    (if str_is (store !! "shanti_running") "1" then Guarded.startTimer
     else Guarded.startFresh) w3 /\
    vars w3 = restoredVars audio store /\
    frame (loadPage now store pg audio vib auto) w3.
Proof.
  set (w0 := loadPage now store pg audio vib auto).
  unfold Guarded.initApp.
  rewrite (bind_ok _ _ _ _ _ (initAudio_ok w0)).
  set (w1 := with_vars _ w0).
  assert (frame w0 w1) as F1 by env_tac.
  destruct (Guarded_setupMusic_ok w1) as (w2 & E2 & V2 & F2).
  rewrite (bind_ok _ _ _ _ _ E2).
  pose proof (frame_trans _ _ _ F1 F2) as F02.
  assert (localStorage w2 = store) as Hst
    by (destruct F02 as (_ & -> & _); reflexivity).
  unfold getItem. rewrite !bind_gets, Hst.
  destruct (Guarded_restoreMute_ok (store !! "shanti_muted") w2)
    as (w3 & E3 & V3 & F3).
  rewrite (bind_ok _ _ _ _ _ E3).
  destruct (Guarded_restoreSessionCount_ok (store !! "shanti_session_count") w3)
    as (w4 & E4 & V4 & F4).
  rewrite (bind_ok _ _ _ _ _ E4).
  destruct (Guarded_restorePausedRemaining_ok
              (store !! "shanti_paused_remaining") w4)
    as (w5 & E5 & V5 & F5).
  rewrite (bind_ok _ _ _ _ _ E5).
  exists w5. split; [reflexivity |]. split.
  - rewrite V5, V4, V3, V2. unfold restoredVars, restoredRemaining,
      restoredCount. cbn.
    destruct (bound (bgMusic pg)); cbn;
      rewrite ?orb_false_r, ?orb_diag; reflexivity.
  - exact (frame_trans _ _ _ F02
             (frame_trans _ _ _ F3 (frame_trans _ _ _ F4 F5))).
Qed.

(** What [initApp] does, on any page: it restores the saved state and
    starts the timer. *)
Lemma Guarded_boot now store pg audio vib auto :
  exists w',
    Guarded.initApp (loadPage now store pg audio vib auto) = Ok tt w' /\
    boot_post true now store pg w'.
Proof.
  destruct (Guarded_boot_restored now store pg audio vib auto)
    as (w3 & -> & V & F).
  assert (running (vars w3) = false) as Hrun by now rewrite V.
  destruct (str_is (store !! "shanti_running") "1").
  - destruct (Guarded_startTimer_paused w3 Hrun) as (w4 & E4 & P4).
    exists w4. split; [exact E4 |]. eapply boot_post_started; eauto.
  - destruct (Guarded_startFresh_ok w3) as (w4 & E4 & P4).
    exists w4. split; [exact E4 |]. eapply boot_post_started; eauto.
Qed.

Lemma fullPage_complete : page_complete fullPage.
Proof. repeat split; eexists; reflexivity. Defined.

(** *** Automatic start *)

Lemma counting_from_boot now store pg (w' : World) :
  store !! "shanti_paused_remaining" = None ->
  boot_post true now store pg w' ->
  counting_from now cycleDurationMs w'.
Proof.
  intros Hp (_ & _ & _ & _ & _ & _ & Hr & He & Hi & Ht & _ & Hst).
  unfold counting_from, phase_of. rewrite Hr, He, Hi, Ht, Hst.
  unfold restoredRemaining. rewrite Hp. repeat split; storage.
Qed.

(** C10.  On a page load with neither a running flag nor a saved remaining
    time in the store, the timer is started without any user action: the
    engine ends up running, with [endTimeMs] = now + the cycle duration, one
    interval scheduled and "1" stored under [shanti_running]. *)
Theorem autostart_on_empty_store now store pg audio vib auto :
  store !! "shanti_running" = None ->
  store !! "shanti_paused_remaining" = None ->
  (page_complete pg ->
   exists w',
     Script.onDOMContentLoaded (loadPage now store pg audio vib auto)
       = Ok tt w' /\
     counting_from now cycleDurationMs w') /\
  (exists w',
     Guarded.initApp (loadPage now store pg audio vib auto) = Ok tt w' /\
     counting_from now cycleDurationMs w').
Proof.
  intros Hr Hp. split.
  - intros Hpg.
    destruct (Script_boot now store pg audio vib auto Hpg) as (w' & E & P).
    rewrite Hr in P. exists w'. split; [exact E |].
    now apply (counting_from_boot now store pg).
  - destruct (Guarded_boot now store pg audio vib auto) as (w' & E & P).
    exists w'. split; [exact E |].
    now apply (counting_from_boot now store pg).
Qed.

Lemma autostart_on_empty_store_witness :
  exists w',
    Script.onDOMContentLoaded (loadPage 1000 ∅ fullPage true true true)
      = Ok tt w' /\
    counting_from 1000 cycleDurationMs w'.
Proof.
  refine (proj1 (autostart_on_empty_store 1000 ∅ fullPage true true true
                   _ _) fullPage_complete); reflexivity.
Defined.

(** *** The persisted-state round trip *)

Lemma pausedSnapshot_holds : holds_pausedSnapshot pausedSnapshot.
Proof. repeat split. Defined.

(** The guarded variant does not come back paused from the snapshot. *)
Lemma roundtrip_counterexample : ~ roundtrip_as_stated Guarded.initApp.
Proof.
  intros H.
  destruct (H 1000 pausedSnapshot fullPage true true true
              pausedSnapshot_holds fullPage_complete)
    as (w' & E & Hph & _).
  vm_compute in E. injection E as <-. vm_compute in Hph. discriminate.
Qed.

(** C4, as the code has it.  From a store holding running = "0", a saved
    remaining time of 30000, muted = "true" and a count of 7, [script.js]
    comes back paused with 30000 ms left, muted, with count 7 and nothing
    scheduled; the guarded variant restores the same remaining time, mute
    flag and count but starts the timer at once, so it is running with
    30000 ms left. *)
Theorem roundtrip_spec now store pg audio vib auto :
  holds_pausedSnapshot store ->
  (page_complete pg ->
   exists w',
     Script.onDOMContentLoaded (loadPage now store pg audio vib auto)
       = Ok tt w' /\
     phase_of w' = Paused /\ remainingMs w' = Int 30000 /\
     muted (vars w') = true /\ sessionCount (vars w') = Int 7 /\
     timers w' = []) /\
  (exists w',
     Guarded.initApp (loadPage now store pg audio vib auto) = Ok tt w' /\
     phase_of w' = Running /\ remainingMs w' = Int 30000 /\
     endTimeMs (vars w') = Int (now + 30000) /\
     muted (vars w') = true /\ sessionCount (vars w') = Int 7 /\
     timers w' = [1%nat]).
Proof.
  intros (Hr & Hp & Hm & Hc). split.
  - intros Hpg.
    destruct (Script_boot now store pg audio vib auto Hpg) as (w' & E & P).
    rewrite Hr in P. cbn in P.
    destruct P as (_ & _ & _ & Hmu & Hcnt & Hrem & Hrun & _ & _ & Ht & _).
    exists w'. split; [exact E |].
    unfold remainingMs, phase_of. rewrite Hrun, Hmu, Hcnt, Hrem, Ht.
    unfold restoredRemaining, restoredCount. rewrite Hm, Hp, Hc. cbn.
    change (parseInt "30000") with (Int 30000).
    change (parseInt "7") with (Int 7).
    repeat split.
  - destruct (Guarded_boot now store pg audio vib auto) as (w' & E & P).
    destruct P as (Hclk & _ & _ & Hmu & Hcnt & Hrem & Hrun & Hend & _ & Ht & _).
    exists w'. split; [exact E |].
    unfold remainingMs, phase_of. rewrite Hrun, Hmu, Hcnt, Hend, Ht, Hclk.
    unfold restoredRemaining, restoredCount. rewrite Hm, Hp, Hc. cbn.
    change (parseInt "30000") with (Int 30000).
    change (parseInt "7") with (Int 7).
    change (resumeLeft (Int 30000)) with 30000. cbn.
    replace (now + 30000 - now) with 30000 by lia.
    repeat split.
Qed.

Lemma roundtrip_spec_witness :
  exists w',
    Script.onDOMContentLoaded
      (loadPage 1000 pausedSnapshot fullPage true true true) = Ok tt w' /\
    phase_of w' = Paused /\ remainingMs w' = Int 30000 /\
    muted (vars w') = true /\ sessionCount (vars w') = Int 7 /\
    timers w' = [].
Proof.
  exact (proj1 (roundtrip_spec 1000 pausedSnapshot fullPage true true true
                  pausedSnapshot_holds) fullPage_complete).
Defined.

(** *** Malformed stored values *)

Lemma unparsable_truthy (o : option string) :
  unparsable o ->
  truthy_str o = true /\ parseInt (default "" o) = NaN.
Proof.
  intros (s & -> & Hs & _ & Hp). split; [| exact Hp]. now destruct s.
Qed.

(** An unparsable count does not give a zero count. *)
Lemma malformed_counterexample : ~ malformed_as_stated Script.onDOMContentLoaded.
Proof.
  intros H.
  destruct (H 1000 badCountStore fullPage true true true fullPage_complete)
    as (w' & E & Hcnt & _).
  vm_compute in E. injection E as <-.
  assert (unparsable (badCountStore !! "shanti_session_count")) as Hu.
  { exists "abc". repeat split. discriminate. }
  specialize (Hcnt Hu). vm_compute in Hcnt. discriminate.
Qed.

Lemma malformed_post_boot (started : bool) now store pg (w' : World) :
  boot_post started now store pg w' -> malformed_post now store w'.
Proof.
  intros (_ & _ & _ & Hmu & Hcnt & Hrem & Hrun & Hrest).
  unfold malformed_post, phase_of.
  rewrite Hmu, Hcnt, Hrem, Hrun. unfold restoredCount.
  split; [| split; [| split; [| split]]]; try reflexivity.
  - intros Hu. apply unparsable_truthy in Hu as [-> ->]. reflexivity.
  - intros Hu. apply unparsable_truthy in Hu as [Ht Hp].
    assert (restoredRemaining store = NaN) as HN
      by (unfold restoredRemaining; now rewrite Ht, Hp).
    split; [exact HN |].
    destruct started; [| discriminate]. intros _.
    destruct Hrest as (-> & _). now rewrite HN.
  - intros ->. reflexivity.
  - intros H. unfold restoredRemaining. rewrite H. reflexivity.
Qed.

(** C9, as the code has it.  A stored count that is present, not empty,
    made of ASCII characters and does not read as an integer makes
    [sessionCount] NaN, not zero.  Such a
    stored remaining time makes [pausedRemainingMs] NaN; whenever the page
    load starts the timer the cycle is nevertheless a fresh one of full
    duration, which [script.js] does unless "0" is stored under
    [shanti_running] and the guarded variant always.  An empty stored value
    is treated as absent, and the mute flag is set exactly when "true" is
    stored under [shanti_muted]. *)
Theorem malformed_store_spec now store pg audio vib auto :
  (page_complete pg ->
   exists w',
     Script.onDOMContentLoaded (loadPage now store pg audio vib auto)
       = Ok tt w' /\
     malformed_post now store w' /\
     phase_of w' =
       (if str_is (store !! "shanti_running") "0" then Paused else Running)) /\
  (exists w',
     Guarded.initApp (loadPage now store pg audio vib auto) = Ok tt w' /\
     malformed_post now store w' /\ phase_of w' = Running).
Proof.
  split.
  - intros Hpg.
    destruct (Script_boot now store pg audio vib auto Hpg) as (w' & E & P).
    exists w'. split; [exact E |]. split.
    + eapply malformed_post_boot; eauto.
    + unfold phase_of. destruct P as (_ & _ & _ & _ & _ & _ & -> & _).
      now destruct (str_is (store !! "shanti_running") "0").
  - destruct (Guarded_boot now store pg audio vib auto) as (w' & E & P).
    exists w'. split; [exact E |]. split.
    + eapply malformed_post_boot; eauto.
    + unfold phase_of. destruct P as (_ & _ & _ & _ & _ & _ & -> & _).
      reflexivity.
Qed.

Lemma malformed_store_spec_witness :
  exists w',
    Script.onDOMContentLoaded
      (loadPage 1000 badRemainingStore fullPage true true true) = Ok tt w' /\
    malformed_post 1000 badRemainingStore w' /\
    phase_of w' =
      (if str_is (badRemainingStore !! "shanti_running") "0"
       then Paused else Running).
Proof.
  exact (proj1 (malformed_store_spec 1000 badRemainingStore fullPage
                  true true true) fullPage_complete).
Defined.

(** ** [toggleMute] and [toggleTimer] *)

Lemma Script_toggleMute_ok (w : World) :
  is_Some (muteBtn (page w)) ->
  exists w', Script.toggleMute w = Ok tt w' /\ mute_post w w'.
Proof.
  destruct_world w. intros [b ->]. unfold Script.toggleMute.
  unfold_prims. cbn. done_ok. unfold mute_post. cbn.
  destruct bgMusic0; repeat split; env_tac.
Qed.

Lemma Guarded_toggleMute_ok (w : World) :
  exists w', Guarded.toggleMute w = Ok tt w' /\ mute_post w w'.
Proof.
  destruct_world w.
  unfold Guarded.toggleMute, Guarded.pauseMusic, Guarded.playMusic.
  destruct muted0, muteBtn0, bgMusic0, autoplay0; unfold_prims; cbn;
    done_ok; unfold mute_post; cbn; repeat split; env_tac.
Qed.

Lemma Script_toggleTimer_eq (w : World) :
  Script.toggleTimer w =
  if running (vars w) then Script.pauseTimer w else Script.startTimer w.
Proof.
  unfold Script.toggleTimer. unfold_prims. now destruct (running (vars w)).
Qed.

Lemma Guarded_toggleTimer_eq (w : World) :
  Guarded.toggleTimer w =
  if running (vars w) then Guarded.pauseTimer w else Guarded.startTimer w.
Proof.
  unfold Guarded.toggleTimer. unfold_prims. now destruct (running (vars w)).
Qed.

(** Without a timer element the guarded [tick] leaves an expired cycle as
    it is. *)
Lemma Guarded_tick_no_element (w : World) (e : Z) :
  endTimeMs (vars w) = Int e -> e - clock w <= 0 ->
  timerElement (page w) = None ->
  Guarded.tick w = Ok tt w.
Proof.
  destruct_world w. intros -> He ->.
  unfold Guarded.tick, Guarded.onFinish. unfold_prims. cbn.
  apply Z.leb_le in He. now rewrite He.
Qed.

(** ** Invariants of the reachable states *)

Ltac dlia := unfold cycleDurationMs, DURATION in *; lia.

Lemma store_ok_insert_other (k v : string) (store : gmap string string) :
  k <> "shanti_paused_remaining" ->
  store_ok store -> store_ok (<[k := v]> store).
Proof.
  intros Hk H s Hs. rewrite lookup_insert_ne in Hs by exact Hk. now apply H.
Qed.

Lemma store_ok_written (z : Z) (store : gmap string string) :
  0 <= z <= cycleDurationMs ->
  store_ok (<["shanti_paused_remaining" := Z_toString z]> store).
Proof.
  intros Hz s Hs _. rewrite lookup_insert_eq in Hs. injection Hs as <-.
  exists z. split; [apply parseInt_toString | exact Hz].
Qed.

Lemma store_ok_removed (store : gmap string string) :
  store_ok (delete "shanti_paused_remaining" store).
Proof. intros s Hs. now rewrite lookup_delete_eq in Hs. Qed.

Lemma inv_start (w w' : World) : inv w -> start_post w w' -> inv w'.
Proof.
  intros [(Hc & _ & Hp & _) (Hn & Hti)] P.
  pose proof (start_post_end _ _ P) as Hend.
  pose proof (resumeLeft_bounds (pausedRemainingMs (vars w))) as Hb.
  destruct P as (Hr & _ & _ & Hst & Hi & Ht & Hn' & Hp' & _ & _ & _
                 & (Hc' & _)).
  split.
  - unfold time_inv. rewrite Hc', Hend, Hp', Hst.
    repeat split; try assumption.
    + eexists. split; [reflexivity | dlia].
    + apply store_ok_removed.
  - unfold timer_inv. rewrite Hi, Hn', Hr, Ht.
    split; [dlia |]. split; [reflexivity |]. split; [| dlia].
    unfold cleared. destruct (intervalId (vars w)) as [i|].
    + destruct Hti as (_ & -> & Hi1). destruct i as [|i]; [dlia |].
      unfold remove_id. cbn. now rewrite Nat.eqb_refl.
    + destruct Hti as (_ & ->). reflexivity.
Qed.

Lemma inv_pause (w w' : World) : inv w -> pause_post w w' -> inv w'.
Proof.
  intros [(Hc & (e & He & Hle) & _ & Hs) (Hn & Hti)] P.
  destruct P as (Hr & _ & Hp & Hi & _ & Ht & Hn' & Hst & He' & _ & _ & _
                 & (Hc' & _)).
  specialize (Hp e He).
  split.
  - unfold time_inv. rewrite Hc', He', Hst, Hp.
    repeat split; try assumption.
    + eauto.
    + eexists. split; [reflexivity | dlia].
    + change (toString (Int (Z.max 0 (e - clock w))))
        with (Z_toString (Z.max 0 (e - clock w))).
      apply store_ok_written. dlia.
  - unfold timer_inv. rewrite Hi, Hn', Hr, Ht.
    split; [exact Hn |]. split; [reflexivity |].
    destruct (intervalId (vars w)) as [i|].
    + destruct Hti as (_ & -> & _). unfold remove_id. cbn.
      now rewrite Nat.eqb_refl.
    + now destruct Hti.
Qed.

Lemma inv_restart (w w' : World) : inv w -> restart_post w w' -> inv w'.
Proof.
  intros [(Hc & (e & He & Hle) & _ & Hs) Hti] P.
  destruct P as (Hp & Hr & Hrun & Hpau & _ & Hst & _ & _ & _ & Ht & Hn & Hi
                 & (Hc' & _)).
  split.
  - unfold time_inv. rewrite Hc', Hst, Hp.
    repeat split; try assumption.
    + destruct (running (vars w)).
      * rewrite Hrun by reflexivity. eexists. split; [reflexivity | dlia].
      * rewrite Hpau by reflexivity. eauto.
    + eexists. split; [reflexivity |]. dlia.
    + change "60000" with (Z_toString 60000).
      apply store_ok_written. dlia.
  - unfold timer_inv in *. now rewrite Hi, Hn, Hr, Ht.
Qed.

Lemma inv_finish (w w' : World) : inv w -> finish_post w w' -> inv w'.
Proof.
  intros [(Hc & _ & Hp & Hs) Hti] P.
  destruct P as (_ & _ & _ & _ & Hst & He & _ & Hr & Hp' & _ & Ht & Hn & Hi
                 & (Hc' & _)).
  split.
  - unfold time_inv. rewrite Hc', Hst, Hp', He.
    repeat split; try assumption.
    + eexists. split; [reflexivity | dlia].
    + apply store_ok_insert_other; [discriminate | exact Hs].
  - unfold timer_inv in *. now rewrite Hi, Hn, Hr, Ht.
Qed.

Lemma inv_idle (left : Z) (w w' : World) :
  inv w -> idle_post left w w' -> inv w'.
Proof.
  intros [Hti Htm] (V & _ & (Hc & _) & Hst & Ht & Hn & _).
  split.
  - unfold time_inv in *. now rewrite V, Hc, Hst.
  - unfold timer_inv in *. now rewrite V, Hn, Ht.
Qed.

Lemma inv_mute (w w' : World) : inv w -> mute_post w w' -> inv w'.
Proof.
  intros [(Hc & He & Hp & Hs) Hti] (V & Hst & Ht & Hn & _ & (Hc' & _)).
  split.
  - unfold time_inv. rewrite V, Hc', Hst. cbn.
    repeat split; try assumption.
    apply store_ok_insert_other; [discriminate | exact Hs].
  - unfold timer_inv in *. rewrite V, Hn, Ht. exact Hti.
Qed.

Lemma inv_advance (d : N) (w : World) : inv w -> inv (advance (Z.of_N d) w).
Proof.
  intros [(Hc & (e & He & Hle) & Hp & Hs) Hti].
  split; [| exact Hti].
  unfold time_inv. cbn. repeat split; try assumption; [dlia |].
  exists e. split; [exact He | dlia].
Qed.

Lemma inv_boot (started : bool) now store pg (w' : World) :
  0 <= now -> store_ok store ->
  boot_post started now store pg w' -> inv w'.
Proof.
  intros Hnow Hs (Hc & _ & _ & _ & _ & Hp & Hr & Hrest).
  assert (exists p, restoredRemaining store = Int p /\
                    0 <= p <= cycleDurationMs) as Hrem.
  { unfold restoredRemaining.
    destruct (store !! "shanti_paused_remaining") as [s|] eqn:E.
    - destruct (truthy_str (Some s)) eqn:Et.
      + apply (Hs s E Et).
      + eexists. split; [reflexivity |]. dlia.
    - eexists. split; [reflexivity |]. dlia. }
  pose proof (resumeLeft_bounds (restoredRemaining store)) as Hb.
  destruct started.
  - destruct Hrest as (He & Hi & Ht & Hn & Hst). split.
    + unfold time_inv. rewrite Hc, He, Hp, Hst.
      repeat split; try assumption.
      * eexists. split; [reflexivity | dlia].
      * apply store_ok_removed.
    + unfold timer_inv. rewrite Hi, Hn, Hr, Ht. repeat split; dlia.
  - destruct Hrest as (He & Hi & Ht & Hn & Hst). split.
    + unfold time_inv. rewrite Hc, He, Hp, Hst.
      repeat split; try assumption.
      eexists. split; [reflexivity |]. dlia.
    + unfold timer_inv. rewrite Hi, Hn, Hr, Ht. repeat split; dlia.
Qed.

Lemma start_post_elements (w w' : World) :
  start_post w w' -> same_elements (page w) (page w').
Proof.
  intros (_ & _ & _ & _ & _ & _ & _ & _ & _ & _ & _ & (_ & _ & _ & _ & H)).
  exact H.
Qed.

Lemma pause_post_elements (w w' : World) :
  pause_post w w' -> same_elements (page w) (page w').
Proof.
  intros (_ & _ & _ & _ & _ & _ & _ & _ & _ & _ & _ & _
          & (_ & _ & _ & _ & H)).
  exact H.
Qed.

Lemma restart_post_elements (w w' : World) :
  restart_post w w' -> same_elements (page w) (page w').
Proof.
  intros (_ & _ & _ & _ & _ & _ & _ & _ & _ & _ & _ & _
          & (_ & _ & _ & _ & H)).
  exact H.
Qed.

Lemma finish_post_elements (w w' : World) :
  finish_post w w' -> same_elements (page w) (page w').
Proof.
  intros (_ & _ & _ & _ & _ & _ & _ & _ & _ & _ & _ & _ & _
          & (_ & _ & _ & _ & H)).
  exact H.
Qed.

Lemma idle_post_elements (left : Z) (w w' : World) :
  idle_post left w w' -> same_elements (page w) (page w').
Proof. intros (_ & _ & ((_ & _ & _ & _ & H) & _)). exact H. Qed.

Lemma mute_post_elements (w w' : World) :
  mute_post w w' -> same_elements (page w) (page w').
Proof. intros (_ & _ & _ & _ & _ & (_ & _ & _ & _ & H)). exact H. Qed.

Lemma boot_post_elements (started : bool) now store pg (w' : World) :
  boot_post started now store pg w' -> same_elements pg (page w').
Proof. intros (_ & H & _). exact H. Qed.

(** Any property kept by each kind of transition is kept by every
    operation of either variant. *)
Section StepInvariant.

Variable I : World -> Prop.
Hypothesis I_end : forall w, I w -> exists e, endTimeMs (vars w) = Int e.
Hypothesis I_start : forall w w', I w -> start_post w w' -> I w'.
Hypothesis I_pause : forall w w', I w -> pause_post w w' -> I w'.
Hypothesis I_restart : forall w w', I w -> restart_post w w' -> I w'.
Hypothesis I_finish : forall w w', I w -> finish_post w w' -> I w'.
Hypothesis I_idle : forall left w w', I w -> idle_post left w w' -> I w'.
Hypothesis I_mute : forall w w', I w -> mute_post w w' -> I w'.
Hypothesis I_advance : forall d w, I w -> I (advance (Z.of_N d) w).
Hypothesis I_reload : forall started pg w w',
  I w -> boot_post started (clock w) (localStorage w) pg w' -> I w'.

Lemma script_start_inv (w : World) :
  page_complete (page w) -> I w ->
  I (final (Script.startTimer w)) /\
  page_complete (page (final (Script.startTimer w))).
Proof.
  intros Hpg Hinv. destruct (running (vars w)) eqn:Hr.
  - rewrite Script_startTimer_running by exact Hr. now split.
  - destruct (Script_startTimer_paused w Hr) as (w' & E & P); [apply Hpg |].
    rewrite E. split; [exact (I_start _ _ Hinv P) |].
    eapply page_complete_same; [eapply start_post_elements |]; eauto.
Qed.

Lemma script_pause_inv (w : World) :
  page_complete (page w) -> I w ->
  I (final (Script.pauseTimer w)) /\
  page_complete (page (final (Script.pauseTimer w))).
Proof.
  intros Hpg Hinv. destruct (running (vars w)) eqn:Hr.
  - destruct (Script_pauseTimer_running w Hr) as (w' & E & P); [apply Hpg |].
    rewrite E. split; [exact (I_pause _ _ Hinv P) |].
    eapply page_complete_same; [eapply pause_post_elements |]; eauto.
  - rewrite Script_pauseTimer_paused by exact Hr. now split.
Qed.

Lemma script_toggle_inv (w : World) :
  page_complete (page w) -> I w ->
  I (final (Script.toggleTimer w)) /\
  page_complete (page (final (Script.toggleTimer w))).
Proof.
  intros Hpg Hinv. rewrite Script_toggleTimer_eq.
  destruct (running (vars w));
    [now apply script_pause_inv | now apply script_start_inv].
Qed.

Lemma script_restart_inv (w : World) :
  page_complete (page w) -> I w ->
  I (final (Script.restartTimer w)) /\
  page_complete (page (final (Script.restartTimer w))).
Proof.
  intros Hpg Hinv.
  destruct (Script_restartTimer_ok w) as (w' & E & P); [apply Hpg |].
  rewrite E. split; [exact (I_restart _ _ Hinv P) |].
  eapply page_complete_same; [eapply restart_post_elements |]; eauto.
Qed.

Lemma script_mute_inv (w : World) :
  page_complete (page w) -> I w ->
  I (final (Script.toggleMute w)) /\
  page_complete (page (final (Script.toggleMute w))).
Proof.
  intros Hpg Hinv.
  destruct (Script_toggleMute_ok w) as (w' & E & P); [apply Hpg |].
  rewrite E. split; [exact (I_mute _ _ Hinv P) |].
  eapply page_complete_same; [eapply mute_post_elements |]; eauto.
Qed.

Lemma script_tick_inv (w : World) :
  page_complete (page w) -> I w ->
  I (final (Script.tick w)) /\ page_complete (page (final (Script.tick w))).
Proof.
  intros Hpg Hinv. destruct (I_end _ Hinv) as (e & He).
  destruct (Z_le_gt_dec (e - clock w) 0) as [Hle | Hgt].
  - destruct (Script_tick_finish w e He Hle) as (w' & E & P);
      [apply Hpg | apply Hpg |].
    rewrite E. split; [exact (I_finish _ _ Hinv P) |].
    eapply page_complete_same; [eapply finish_post_elements |]; eauto.
  - destruct (Script_tick_idle w e He ltac:(lia)) as (w' & E & P);
      [apply Hpg |].
    rewrite E. split; [exact (I_idle _ _ _ Hinv P) |].
    eapply page_complete_same; [eapply idle_post_elements |]; eauto.
Qed.

Lemma script_ticks_inv (l : list nat) (w : World) :
  page_complete (page w) -> I w ->
  let w' := fold_left (fun v _ => final (Script.tick v)) l w in
  I w' /\ page_complete (page w').
Proof.
  revert w. induction l as [| i l IH]; intros w Hpg Hinv; cbn.
  - now split.
  - destruct (script_tick_inv w Hpg Hinv) as [H1 H2]. now apply IH.
Qed.

(** One operation of [script.js] on a complete page keeps the property
    and the page complete. *)
Lemma script_step_inv (o : op) (w : World) :
  page_complete (page w) -> I w ->
  I (step script o w) /\ page_complete (page (step script o w)).
Proof.
  intros Hpg Hinv.
  destruct o; cbn [step script p_start p_pause p_toggle p_restart p_mute
                     p_tick p_init p_key].
  - now apply script_start_inv.
  - now apply script_pause_inv.
  - now apply script_toggle_inv.
  - now apply script_restart_inv.
  - now apply script_mute_inv.
  - unfold Script.handleKeyboardShortcuts.
    destruct (_ || _); [now split |].
    destruct (String.eqb key " "); [now apply script_toggle_inv |].
    destruct (_ || _); [now apply script_restart_inv |].
    destruct (_ || _); [now apply script_mute_inv | now split].
  - now apply script_ticks_inv.
  - split; [now apply I_advance | exact Hpg].
  - unfold reload.
    destruct (Script_boot (clock w) (localStorage w) (page w) (webAudio w)
                (canVibrate w) (autoplay w) Hpg) as (w' & E & P).
    rewrite E. cbn [final]. split.
    + exact (I_reload _ _ _ _ Hinv P).
    + eapply page_complete_same; [eapply boot_post_elements |]; eauto.
Qed.

Lemma guarded_start_inv (w : World) :
  I w -> I (final (Guarded.startTimer w)).
Proof.
  intros Hinv. destruct (running (vars w)) eqn:Hr.
  - now rewrite Guarded_startTimer_running by exact Hr.
  - destruct (Guarded_startTimer_paused w Hr) as (w' & E & P).
    rewrite E. exact (I_start _ _ Hinv P).
Qed.

Lemma guarded_pause_inv (w : World) :
  I w -> I (final (Guarded.pauseTimer w)).
Proof.
  intros Hinv. destruct (running (vars w)) eqn:Hr.
  - destruct (Guarded_pauseTimer_running w Hr) as (w' & E & P).
    rewrite E. exact (I_pause _ _ Hinv P).
  - now rewrite Guarded_pauseTimer_paused by exact Hr.
Qed.

Lemma guarded_toggle_inv (w : World) :
  I w -> I (final (Guarded.toggleTimer w)).
Proof.
  intros Hinv. rewrite Guarded_toggleTimer_eq.
  destruct (running (vars w));
    [now apply guarded_pause_inv | now apply guarded_start_inv].
Qed.

Lemma guarded_restart_inv (w : World) :
  I w -> I (final (Guarded.restartTimer w)).
Proof.
  intros Hinv. destruct (Guarded_restartTimer_ok w) as (w' & E & P).
  rewrite E. exact (I_restart _ _ Hinv P).
Qed.

Lemma guarded_mute_inv (w : World) :
  I w -> I (final (Guarded.toggleMute w)).
Proof.
  intros Hinv. destruct (Guarded_toggleMute_ok w) as (w' & E & P).
  rewrite E. exact (I_mute _ _ Hinv P).
Qed.

Lemma guarded_tick_inv (w : World) : I w -> I (final (Guarded.tick w)).
Proof.
  intros Hinv. destruct (I_end _ Hinv) as (e & He).
  destruct (Z_le_gt_dec (e - clock w) 0) as [Hle | Hgt].
  - destruct (timerElement (page w)) as [t|] eqn:Et.
    + destruct (Guarded_tick_finish w e He Hle) as (w' & E & P);
        [rewrite Et; eauto |].
      rewrite E. exact (I_finish _ _ Hinv P).
    + now rewrite (Guarded_tick_no_element w e He Hle Et).
  - destruct (Guarded_tick_idle w e He ltac:(lia)) as (w' & E & P).
    rewrite E. exact (I_idle _ _ _ Hinv P).
Qed.

Lemma guarded_ticks_inv (l : list nat) (w : World) :
  I w -> I (fold_left (fun v _ => final (Guarded.tick v)) l w).
Proof.
  revert w. induction l as [| i l IH]; intros w Hinv; cbn.
  - exact Hinv.
  - apply IH. now apply guarded_tick_inv.
Qed.

(** One operation of the guarded variant keeps the property, on any
    page. *)
Lemma guarded_step_inv (o : op) (w : World) :
  I w -> I (step guarded o w).
Proof.
  intros Hinv.
  destruct o; cbn [step guarded p_start p_pause p_toggle p_restart p_mute
                     p_tick p_init p_key].
  - now apply guarded_start_inv.
  - now apply guarded_pause_inv.
  - now apply guarded_toggle_inv.
  - now apply guarded_restart_inv.
  - now apply guarded_mute_inv.
  - unfold Guarded.handleKeyboardShortcuts.
    destruct (_ || _); [exact Hinv |].
    destruct (String.eqb key " "); [now apply guarded_toggle_inv |].
    destruct (_ || _); [now apply guarded_restart_inv |].
    destruct (_ || _); [now apply guarded_mute_inv | exact Hinv].
  - now apply guarded_ticks_inv.
  - now apply I_advance.
  - unfold reload.
    destruct (Guarded_boot (clock w) (localStorage w) (page w) (webAudio w)
                (canVibrate w) (autoplay w)) as (w' & E & P).
    rewrite E. cbn [final]. exact (I_reload _ _ _ _ Hinv P).
Qed.

Lemma script_reachable_gen now store pg audio vib auto (w : World) :
  (forall started w', boot_post started now store pg w' -> I w') ->
  page_complete pg ->
  reachable script (loadPage now store pg audio vib auto) w ->
  I w /\ page_complete (page w).
Proof.
  intros Hboot Hpg Hreach. induction Hreach as [| w o _ [IH1 IH2]].
  - cbn [script p_init].
    destruct (Script_boot now store pg audio vib auto Hpg) as (w' & E & P).
    rewrite E. cbn [final]. split.
    + eapply Hboot; eauto.
    + eapply page_complete_same; [eapply boot_post_elements |]; eauto.
  - now apply script_step_inv.
Qed.

Lemma guarded_reachable_gen now store pg audio vib auto (w : World) :
  (forall started w', boot_post started now store pg w' -> I w') ->
  reachable guarded (loadPage now store pg audio vib auto) w ->
  I w.
Proof.
  intros Hboot Hreach. induction Hreach as [| w o _ IH].
  - cbn [guarded p_init].
    destruct (Guarded_boot now store pg audio vib auto) as (w' & E & P).
    rewrite E. cbn [final]. eapply Hboot; eauto.
  - now apply guarded_step_inv.
Qed.

End StepInvariant.

Lemma inv_end (w : World) : inv w -> exists e, endTimeMs (vars w) = Int e.
Proof. intros [(_ & (e & He & _) & _) _]. eauto. Qed.

Lemma inv_reload (started : bool) (pg : Page) (w w' : World) :
  inv w -> boot_post started (clock w) (localStorage w) pg w' -> inv w'.
Proof.
  intros [(Hc & _ & _ & Hs) _] P. eapply inv_boot; eauto.
Qed.

Lemma script_reachable_inv now store pg audio vib auto (w : World) :
  0 <= now -> store_ok store -> page_complete pg ->
  reachable script (loadPage now store pg audio vib auto) w ->
  inv w /\ page_complete (page w).
Proof.
  intros Hnow Hs.
  apply (script_reachable_gen inv inv_end inv_start inv_pause inv_restart
           inv_finish inv_idle inv_mute inv_advance inv_reload).
  intros started w'. now apply inv_boot.
Qed.

Lemma guarded_reachable_inv now store pg audio vib auto (w : World) :
  0 <= now -> store_ok store ->
  reachable guarded (loadPage now store pg audio vib auto) w ->
  inv w.
Proof.
  intros Hnow Hs.
  apply (guarded_reachable_gen inv inv_end inv_start inv_pause inv_restart
           inv_finish inv_idle inv_mute inv_advance inv_reload).
  intros started w'. now apply inv_boot.
Qed.

Lemma model_inv_of_inv (w : World) : inv w -> model_inv w.
Proof.
  intros [(_ & (e & He & Hle) & (p & Hp & Hb) & _) _].
  unfold model_inv, remainingMs, phase_of.
  split; [destruct (running (vars w)); auto |].
  split; [eauto |].
  destruct (running (vars w)).
  - rewrite He. cbn. eexists. split; [reflexivity | lia].
  - rewrite Hp. eexists. split; [reflexivity | lia].
Qed.

(** A saved remaining time of 90 seconds is restored as it is. *)
Lemma model_inv_counterexample : ~ model_inv_as_stated script.
Proof.
  intros H.
  specialize (H 0 longRemainingStore fullPage true true true _
                fullPage_complete (reach_init _ _)).
  destruct H as (_ & (p & Hp & Hb) & _).
  vm_compute in Hp. injection Hp as <-.
  unfold cycleDurationMs, DURATION in Hb. lia.
Qed.

(** C5, as the code has it.  Take a page load at a non-negative clock
    reading, from a store whose saved remaining time, if any, is empty or
    reads as an integer between 0 and the cycle duration (which holds of
    every value the engine itself stores).  Then in every state reachable by
    the controls, keys, ticks, passing time and reloads, the phase is
    Running or Paused, [pausedRemainingMs] is an integer between 0 and the
    cycle duration, and the time source selected by the phase gives an
    integer no larger than the cycle duration. *)
Theorem model_inv_reachable now store pg audio vib auto (w : World) :
  0 <= now -> store_ok store ->
  (page_complete pg ->
   reachable script (loadPage now store pg audio vib auto) w ->
   model_inv w) /\
  (reachable guarded (loadPage now store pg audio vib auto) w ->
   model_inv w).
Proof.
  intros Hnow Hs. split.
  - intros Hpg Hr. apply model_inv_of_inv.
    now apply (script_reachable_inv now store pg audio vib auto).
  - intros Hr. apply model_inv_of_inv.
    now apply (guarded_reachable_inv now store pg audio vib auto).
Qed.

Lemma model_inv_reachable_witness :
  model_inv
    (final (Script.onDOMContentLoaded
              (loadPage 1000 pausedSnapshot fullPage true true true))).
Proof.
  refine (proj1 (model_inv_reachable 1000 pausedSnapshot fullPage
                   true true true _ _ _)
            fullPage_complete (reach_init script _)).
  - lia.
  - intros s Hs _. vm_compute in Hs. injection Hs as <-.
    exists 30000. split; [reflexivity |].
    unfold cycleDurationMs, DURATION. lia.
Defined.

(** ** One scheduled callback, one finish per cycle *)

Lemma timer_inv_cleared (w : World) : timer_inv w -> cleared w = [].
Proof.
  intros (_ & H). unfold cleared. destruct (intervalId (vars w)) as [i|].
  - destruct H as (_ & -> & Hi). destruct i as [|i]; [lia |].
    unfold remove_id. cbn. now rewrite Nat.eqb_refl.
  - now destruct H.
Qed.

Lemma sched_start (w w' : World) : sched_inv w -> start_post w w' -> sched_inv w'.
Proof.
  intros [Hti _] P. pose proof (start_post_end _ _ P) as Hend.
  pose proof (timer_inv_cleared _ Hti) as Hcl. destruct Hti as (Hn & _).
  destruct P as (Hr & _ & _ & _ & Hi & Ht & Hn' & _).
  split; [| eauto].
  unfold timer_inv. rewrite Hi, Hn', Hr, Ht, Hcl. repeat split; lia.
Qed.

Lemma sched_pause (w w' : World) : sched_inv w -> pause_post w w' -> sched_inv w'.
Proof.
  intros [(Hn & Hti) He] P.
  destruct P as (Hr & _ & _ & Hi & _ & Ht & Hn' & _ & He' & _).
  split; [| now rewrite He'].
  unfold timer_inv. rewrite Hi, Hn', Hr, Ht.
  split; [exact Hn |]. split; [reflexivity |].
  destruct (intervalId (vars w)) as [i|].
  - destruct Hti as (_ & -> & _). unfold remove_id. cbn.
    now rewrite Nat.eqb_refl.
  - now destruct Hti.
Qed.

Lemma sched_restart (w w' : World) :
  sched_inv w -> restart_post w w' -> sched_inv w'.
Proof.
  intros [Hti He] P.
  destruct P as (_ & Hr & Hrun & Hpau & _ & _ & _ & _ & _ & Ht & Hn & Hi & _).
  split.
  - unfold timer_inv in *. now rewrite Hi, Hn, Hr, Ht.
  - destruct (running (vars w)).
    + rewrite Hrun by reflexivity. eauto.
    + now rewrite Hpau by reflexivity.
Qed.

Lemma sched_finish (w w' : World) :
  sched_inv w -> finish_post w w' -> sched_inv w'.
Proof.
  intros [Hti _] P.
  destruct P as (_ & _ & _ & _ & _ & He & _ & Hr & _ & _ & Ht & Hn & Hi & _).
  split; [| eauto].
  unfold timer_inv in *. now rewrite Hi, Hn, Hr, Ht.
Qed.

Lemma sched_idle (left : Z) (w w' : World) :
  sched_inv w -> idle_post left w w' -> sched_inv w'.
Proof.
  intros [Hti He] (V & _ & _ & _ & Ht & Hn & _).
  split; [| now rewrite V].
  unfold timer_inv in *. now rewrite V, Hn, Ht.
Qed.

Lemma sched_mute (w w' : World) : sched_inv w -> mute_post w w' -> sched_inv w'.
Proof.
  intros [Hti He] (V & _ & Ht & Hn & _).
  split; [| now rewrite V].
  unfold timer_inv in *. rewrite V, Hn, Ht. exact Hti.
Qed.

Lemma sched_advance (d : N) (w : World) :
  sched_inv w -> sched_inv (advance (Z.of_N d) w).
Proof. intros H. exact H. Qed.

Lemma sched_boot (started : bool) now store pg (w' : World) :
  boot_post started now store pg w' -> sched_inv w'.
Proof.
  intros (_ & _ & _ & _ & _ & _ & Hr & Hrest).
  destruct started; destruct Hrest as (He & Hi & Ht & Hn & _);
    (split; [| eauto]); unfold timer_inv; rewrite Hi, Hn, Hr, Ht;
    repeat split; lia.
Qed.

Lemma sched_end (w : World) :
  sched_inv w -> exists e, endTimeMs (vars w) = Int e.
Proof. now intros [_ H]. Qed.

Lemma sched_reload (started : bool) (pg : Page) (w w' : World) :
  sched_inv w -> boot_post started (clock w) (localStorage w) pg w' ->
  sched_inv w'.
Proof. intros _. apply sched_boot. Qed.

Lemma script_reachable_sched now store pg audio vib auto (w : World) :
  page_complete pg ->
  reachable script (loadPage now store pg audio vib auto) w ->
  sched_inv w /\ page_complete (page w).
Proof.
  apply (script_reachable_gen sched_inv sched_end sched_start sched_pause
           sched_restart sched_finish sched_idle sched_mute sched_advance
           sched_reload).
  intros started w'. apply sched_boot.
Qed.

Lemma guarded_reachable_sched now store pg audio vib auto (w : World) :
  reachable guarded (loadPage now store pg audio vib auto) w ->
  sched_inv w.
Proof.
  apply (guarded_reachable_gen sched_inv sched_end sched_start sched_pause
           sched_restart sched_finish sched_idle sched_mute sched_advance
           sched_reload).
  intros started w'. apply sched_boot.
Qed.

Lemma sched_inv_timers (w : World) :
  sched_inv w -> (length (timers w) <= 1)%nat.
Proof.
  intros [(_ & H) _]. destruct (intervalId (vars w)).
  - destruct H as (_ & -> & _). cbn. lia.
  - destruct H as (_ & ->). cbn. lia.
Qed.

Lemma sched_inv_fireAll (P : program) (w : World) :
  sched_inv w -> running (vars w) = true ->
  fireAll P w = final (p_tick P w).
Proof.
  intros [(_ & H) _] Hr. unfold fireAll.
  destruct (intervalId (vars w)).
  - destruct H as (_ & -> & _). reflexivity.
  - destruct H as (H & _). congruence.
Qed.

Lemma finishCount_finish (w w' : World) :
  finish_post w w' -> finishCount w' = S (finishCount w).
Proof.
  intros (_ & He & _). unfold finishCount. rewrite He, List.filter_app.
  rewrite length_app. unfold finishEffects.
  destruct (muted (vars w) || negb (audioContext (vars w))),
           (muted (vars w) || negb (canVibrate w)); cbn; lia.
Qed.

Lemma finishCount_idle (left : Z) (w w' : World) :
  idle_post left w w' -> finishCount w' = finishCount w.
Proof.
  intros (_ & _ & (_ & _ & _ & _ & He)). unfold finishCount. now rewrite He.
Qed.

(** After a finish transition, a tick that comes less than a cycle duration
    later is idle: the argument shared by both variants, for pages [ready]
    to show the countdown. *)
Section OneFinish.

Variable P : program.
Variable ready : Page -> Prop.
Hypothesis ready_same : forall pg pg',
  same_elements pg pg' -> ready pg -> ready pg'.
Hypothesis tick_finish : forall w e,
  endTimeMs (vars w) = Int e -> e - clock w <= 0 -> ready (page w) ->
  exists w', p_tick P w = Ok tt w' /\ finish_post w w'.
Hypothesis tick_idle : forall w e,
  endTimeMs (vars w) = Int e -> 0 < e - clock w -> ready (page w) ->
  exists w', p_tick P w = Ok tt w' /\ idle_post (e - clock w) w w'.

Lemma one_finish_gen (w : World) :
  sched_inv w -> ready (page w) -> one_finish_per_cycle P w.
Proof.
  intros Hs Hrd e Hph He Hle.
  assert (running (vars w) = true) as Hr
    by (unfold phase_of in Hph; now destruct (running (vars w))).
  rewrite (sched_inv_fireAll P w Hs Hr).
  destruct (tick_finish w e He ltac:(lia) Hrd) as (w' & E & Pf).
  rewrite E. cbn [final].
  pose proof (finishCount_finish _ _ Pf) as Hcnt. split; [exact Hcnt |].
  intros d Hd.
  pose proof (sched_finish _ _ Hs Pf) as Hs'.
  pose proof (ready_same _ _ (finish_post_elements _ _ Pf) Hrd) as Hrd'.
  destruct Pf as (_ & _ & _ & _ & _ & He' & _ & Hr' & _ & _ & _ & _ & _
                  & (Hc' & _)).
  assert (sched_inv (advance d w')) as Hsa by exact Hs'.
  rewrite (sched_inv_fireAll P (advance d w') Hsa)
    by (cbn; now rewrite Hr').
  destruct (tick_idle (advance d w') (clock w + cycleDurationMs))
    as (w'' & E' & Pi); [exact He' | cbn; lia | exact Hrd' |].
  rewrite E'. cbn [final].
  rewrite (finishCount_idle _ _ _ Pi). exact Hcnt.
Qed.

End OneFinish.

Lemma has_timer_same (pg pg' : Page) :
  same_elements pg pg' ->
  is_Some (timerElement pg) -> is_Some (timerElement pg').
Proof.
  intros Hs [t Ht]. pose proof (Hs TimerElement) as H.
  unfold has in H. cbn in H. rewrite Ht in H.
  destruct (timerElement pg'); [eauto | discriminate].
Qed.

(** C8.  [startTimer] on a running engine changes nothing at all, in
    either variant.  Accordingly every reachable state has at most one
    interval scheduled, and once a running cycle has run out, a round of the
    scheduler produces exactly one finish and no further one until another
    cycle duration has passed ([script.js] on a complete page; the guarded
    variant on a page with a timer element). *)
Theorem start_idempotent_one_timer :
  (forall w, running (vars w) = true ->
     Script.startTimer w = Ok tt w /\ Guarded.startTimer w = Ok tt w) /\
  (forall now store pg audio vib auto w,
     (page_complete pg ->
      reachable script (loadPage now store pg audio vib auto) w ->
      (length (timers w) <= 1)%nat /\ one_finish_per_cycle script w) /\
     (reachable guarded (loadPage now store pg audio vib auto) w ->
      (length (timers w) <= 1)%nat /\
      (is_Some (timerElement (page w)) -> one_finish_per_cycle guarded w))).
Proof.
  split.
  - intros w Hr. split.
    + now apply Script_startTimer_running.
    + now apply Guarded_startTimer_running.
  - intros now store pg audio vib auto w. split.
    + intros Hpg Hreach.
      destruct (script_reachable_sched now store pg audio vib auto w Hpg Hreach)
        as [Hs Hpgw].
      split; [now apply sched_inv_timers |].
      apply (one_finish_gen script page_complete); try assumption.
      * apply page_complete_same.
      * intros v e He Hle Hv. apply (Script_tick_finish v e He Hle); apply Hv.
      * intros v e He Hgt Hv. apply (Script_tick_idle v e He Hgt); apply Hv.
    + intros Hreach.
      pose proof (guarded_reachable_sched now store pg audio vib auto w Hreach)
        as Hs.
      split; [now apply sched_inv_timers |].
      intros Ht.
      apply (one_finish_gen guarded (fun pg => is_Some (timerElement pg)));
        try assumption.
      * apply has_timer_same.
      * intros v e He Hle Hv. now apply (Guarded_tick_finish v e).
      * intros v e He Hgt _. now apply Guarded_tick_idle.
Qed.

Lemma start_idempotent_one_timer_witness :
  Script.startTimer runningWorld = Ok tt runningWorld /\
  Guarded.startTimer runningWorld = Ok tt runningWorld.
Proof.
  apply (proj1 start_idempotent_one_timer runningWorld). reflexivity.
Defined.
(** ** Pausing and resuming *)

Lemma is_Some_same (x : elvar) (pg pg' : Page) :
  same_elements pg pg' ->
  is_Some (getEl x pg) -> is_Some (getEl x pg').
Proof.
  intros Hs [t Ht]. pose proof (Hs x) as H. unfold has in H.
  rewrite Ht in H. destruct (getEl x pg'); [eauto | discriminate].
Qed.

(** Pause, wait, start: the cycle goes on with the time that was left when
    it was paused, or with a full cycle when none was. *)
Lemma resume_after_pause (w w1 w3 : World) (e d : Z) :
  endTimeMs (vars w) = Int e ->
  pause_post w w1 -> start_post (advance d w1) w3 ->
  resumed_with (resumeLeft (Int (Z.max 0 (e - clock w)))) w w3.
Proof.
  intros He Pp Ps. pose proof (start_post_end _ _ Ps) as Hend.
  destruct Pp as (_ & _ & Hp & _ & _ & _ & _ & _ & _ & _ & Hc1 & He1 & _).
  specialize (Hp e He).
  destruct Ps as (Hr & _ & _ & Hst & _ & _ & _ & _ & _ & Hc3 & He3
                  & (Hclk & _)).
  cbn in Hend, Hc3, He3, Hclk. rewrite Hp in Hend.
  unfold resumed_with, remainingMs, phase_of.
  rewrite Hr, Hend, Hclk, Hc3, Hc1, He3, He1, Hst. cbn.
  repeat split; storage. f_equal. lia.
Qed.

Lemma script_toggle_wait_toggle (w : World) (e d : Z) :
  running (vars w) = true -> endTimeMs (vars w) = Int e ->
  is_Some (toggleBtn (page w)) ->
  resumed_with (resumeLeft (Int (Z.max 0 (e - clock w)))) w
    (toggle_wait_toggle script d w).
Proof.
  intros Hr He Hg. unfold toggle_wait_toggle. cbn [script p_toggle].
  rewrite (Script_toggleTimer_eq w), Hr.
  destruct (Script_pauseTimer_running w Hr Hg) as (w1 & -> & Pp).
  cbn [final]. rewrite Script_toggleTimer_eq.
  assert (running (vars (advance d w1)) = false) as Hr1 by apply Pp.
  rewrite Hr1.
  destruct (Script_startTimer_paused (advance d w1) Hr1) as (w3 & -> & Ps).
  { apply (is_Some_same ToggleBtn (page w)); [| exact Hg].
    apply (pause_post_elements _ _ Pp). }
  exact (resume_after_pause w w1 w3 e d He Pp Ps).
Qed.

Lemma guarded_toggle_wait_toggle (w : World) (e d : Z) :
  running (vars w) = true -> endTimeMs (vars w) = Int e ->
  resumed_with (resumeLeft (Int (Z.max 0 (e - clock w)))) w
    (toggle_wait_toggle guarded d w).
Proof.
  intros Hr He. unfold toggle_wait_toggle. cbn [guarded p_toggle].
  rewrite (Guarded_toggleTimer_eq w), Hr.
  destruct (Guarded_pauseTimer_running w Hr) as (w1 & -> & Pp).
  cbn [final]. rewrite Guarded_toggleTimer_eq.
  assert (running (vars (advance d w1)) = false) as Hr1 by apply Pp.
  rewrite Hr1.
  destruct (Guarded_startTimer_paused (advance d w1) Hr1) as (w3 & -> & Ps).
  exact (resume_after_pause w w1 w3 e d He Pp Ps).
Qed.

(** X1.  Pausing a running cycle with [toggleTimer] and resuming it with
    [toggleTimer] after any delay leaves the cycle with exactly the time it
    had left at the pause, provided that time was positive and at most the
    cycle duration: the time spent paused is not deducted, no finish is
    produced and the count is unchanged. *)
Theorem pause_resume_keeps_remaining (w : World) (e d : Z) :
  running (vars w) = true -> endTimeMs (vars w) = Int e ->
  0 < e - clock w <= cycleDurationMs ->
  (is_Some (toggleBtn (page w)) ->
   resumed_with (e - clock w) w (toggle_wait_toggle script d w)) /\
  resumed_with (e - clock w) w (toggle_wait_toggle guarded d w).
Proof.
  intros Hr He Hb.
  assert (resumeLeft (Int (Z.max 0 (e - clock w))) = e - clock w) as Hrl.
  { unfold resumeLeft. rewrite Z.max_r by lia.
    destruct (Z.ltb_spec 0 (e - clock w)),
             (Z.ltb_spec (e - clock w) cycleDurationMs); cbn; lia. }
  rewrite <- Hrl. split.
  - intros Hg. now apply script_toggle_wait_toggle.
  - now apply guarded_toggle_wait_toggle.
Qed.

Lemma pause_resume_keeps_remaining_witness :
  resumed_with 10000 runningWorld (toggle_wait_toggle script 5000 runningWorld).
Proof.
  refine (proj1 (pause_resume_keeps_remaining runningWorld 11000 5000 _ _ _) _).
  - reflexivity.
  - reflexivity.
  - cbn. unfold cycleDurationMs, DURATION. lia.
  - eexists. reflexivity.
Defined.

(** What [pauseTimer] saves, in the variable and in the store. *)
Lemma paused_after_pause (w w1 : World) (e : Z) :
  endTimeMs (vars w) = Int e -> pause_post w w1 ->
  paused_with (Z.max 0 (e - clock w)) w w1.
Proof.
  intros He (Hr & _ & Hp & _ & _ & _ & _ & Hst & _ & _ & Hc & Hef & _).
  specialize (Hp e He). unfold paused_with, phase_of.
  rewrite Hr, Hc, Hef, Hst, Hp. repeat split; storage.
Qed.

(** X2.  Pausing with [toggleTimer] a cycle that has already run out,
    before any tick has finished it, saves a remaining time of 0: the
    engine is paused with [pausedRemainingMs] 0, and "0" is stored under
    [shanti_running] and under [shanti_paused_remaining].  Resuming with
    [toggleTimer] then starts a full new cycle.  The cycle that ran out is
    never finished: the count is unchanged and nothing is announced, at the
    pause and at the resumption. *)
Theorem pause_after_expiry_skips_finish (w : World) (e d : Z) :
  running (vars w) = true -> endTimeMs (vars w) = Int e ->
  e - clock w <= 0 ->
  (is_Some (toggleBtn (page w)) ->
   paused_with 0 w (final (Script.toggleTimer w)) /\
   localStorage (final (Script.toggleTimer w)) !! "shanti_paused_remaining"
     = Some "0" /\
   resumed_with cycleDurationMs w (toggle_wait_toggle script d w) /\
   finishCount (toggle_wait_toggle script d w) = finishCount w) /\
  (paused_with 0 w (final (Guarded.toggleTimer w)) /\
   localStorage (final (Guarded.toggleTimer w)) !! "shanti_paused_remaining"
     = Some "0" /\
   resumed_with cycleDurationMs w (toggle_wait_toggle guarded d w) /\
   finishCount (toggle_wait_toggle guarded d w) = finishCount w).
Proof.
  intros Hr He Hb.
  assert (Z.max 0 (e - clock w) = 0) as Hz by lia.
  assert (resumeLeft (Int (Z.max 0 (e - clock w))) = cycleDurationMs) as Hrl.
  { rewrite Hz. reflexivity. }
  assert (forall w', resumed_with cycleDurationMs w w' ->
                     finishCount w' = finishCount w) as Hfc.
  { intros w' (_ & _ & _ & Hef & _). unfold finishCount. now rewrite Hef. }
  assert (forall w1, pause_post w w1 ->
            paused_with 0 w w1 /\
            localStorage w1 !! "shanti_paused_remaining" = Some "0") as Hpz.
  { intros w1 P. pose proof (paused_after_pause w w1 e He P) as H.
    rewrite Hz in H. split; [exact H |].
    destruct H as (_ & _ & _ & _ & _ & Hs). exact Hs. }
  split.
  - intros Hg. rewrite (Script_toggleTimer_eq w), Hr.
    destruct (Script_pauseTimer_running w Hr Hg) as (w1 & -> & P).
    cbn [final]. destruct (Hpz w1 P) as [H1 H2].
    pose proof (script_toggle_wait_toggle w e d Hr He Hg) as H3.
    rewrite Hrl in H3. auto.
  - rewrite (Guarded_toggleTimer_eq w), Hr.
    destruct (Guarded_pauseTimer_running w Hr) as (w1 & -> & P).
    cbn [final]. destruct (Hpz w1 P) as [H1 H2].
    pose proof (guarded_toggle_wait_toggle w e d Hr He) as H3.
    rewrite Hrl in H3. auto.
Qed.

Lemma pause_after_expiry_skips_finish_witness :
  paused_with 0 expiredWorld (final (Guarded.toggleTimer expiredWorld)) /\
  localStorage (final (Guarded.toggleTimer expiredWorld))
    !! "shanti_paused_remaining" = Some "0" /\
  resumed_with cycleDurationMs expiredWorld
    (toggle_wait_toggle guarded 5000 expiredWorld) /\
  finishCount (toggle_wait_toggle guarded 5000 expiredWorld)
    = finishCount expiredWorld.
Proof.
  refine (proj2 (pause_after_expiry_skips_finish expiredWorld 500 5000 _ _ _)).
  - reflexivity.
  - reflexivity.
  - cbn. lia.
Defined.

(** Start, wait, pause: what was to run is saved, less the time run. *)
Lemma pause_after_start (w w1 w3 : World) (d : Z) :
  start_post w w1 -> pause_post (advance d w1) w3 ->
  paused_with (Z.max 0 (resumeLeft (pausedRemainingMs (vars w)) - d)) w w3.
Proof.
  intros Ps Pp. pose proof (start_post_end _ _ Ps) as Hend.
  destruct Ps as (_ & _ & _ & _ & _ & _ & _ & _ & _ & Hc1 & He1
                  & (Hclk & _)).
  destruct Pp as (Hr & _ & Hp & _ & _ & _ & _ & Hst & _ & _ & Hc3 & He3 & _).
  specialize (Hp _ Hend). cbn in Hp, Hc3, He3.
  replace (clock w + resumeLeft (pausedRemainingMs (vars w)) - (clock w1 + d))
    with (resumeLeft (pausedRemainingMs (vars w)) - d) in Hp by lia.
  unfold paused_with, phase_of. rewrite Hr, Hp, Hc3, Hc1, He3, He1, Hst, Hp.
  repeat split; storage.
Qed.

(** X3.  Resuming a paused engine with [toggleTimer] and pausing it again
    with [toggleTimer] [d] ms later saves the time the resumed cycle had to
    run less [d], never below 0, in [pausedRemainingMs] and under
    [shanti_paused_remaining], with "0" under [shanti_running]; without
    delay a saved time strictly between 0 and the cycle duration comes back
    unchanged. *)
Theorem resume_pause_deducts_once (w : World) (d : Z) :
  running (vars w) = false ->
  let left := Z.max 0 (resumeLeft (pausedRemainingMs (vars w)) - d) in
  ((is_Some (toggleBtn (page w)) ->
    paused_with left w (toggle_wait_toggle script d w)) /\
   paused_with left w (toggle_wait_toggle guarded d w)) /\
  (forall p, pausedRemainingMs (vars w) = Int p -> 0 < p < cycleDurationMs ->
             d = 0 -> left = p).
Proof.
  intros Hr left. split; [split |].
  - intros Hg. unfold toggle_wait_toggle. cbn [script p_toggle].
    rewrite (Script_toggleTimer_eq w), Hr.
    destruct (Script_startTimer_paused w Hr Hg) as (w1 & -> & Ps).
    cbn [final]. rewrite Script_toggleTimer_eq.
    assert (running (vars (advance d w1)) = true) as Hr1 by apply Ps.
    rewrite Hr1.
    destruct (Script_pauseTimer_running (advance d w1) Hr1) as (w3 & -> & Pp).
    { apply (is_Some_same ToggleBtn (page w)); [| exact Hg].
      apply (start_post_elements _ _ Ps). }
    exact (pause_after_start w w1 w3 d Ps Pp).
  - unfold toggle_wait_toggle. cbn [guarded p_toggle].
    rewrite (Guarded_toggleTimer_eq w), Hr.
    destruct (Guarded_startTimer_paused w Hr) as (w1 & -> & Ps).
    cbn [final]. rewrite Guarded_toggleTimer_eq.
    assert (running (vars (advance d w1)) = true) as Hr1 by apply Ps.
    rewrite Hr1.
    destruct (Guarded_pauseTimer_running (advance d w1) Hr1) as (w3 & -> & Pp).
    exact (pause_after_start w w1 w3 d Ps Pp).
  - intros p Hp Hb ->. unfold left, resumeLeft. rewrite Hp.
    destruct (Z.ltb_spec 0 p), (Z.ltb_spec p cycleDurationMs); cbn; lia.
Qed.

Lemma resume_pause_deducts_once_witness :
  paused_with 22000 pausedWorld (toggle_wait_toggle script 8000 pausedWorld).
Proof.
  refine (proj1 (proj1 (resume_pause_deducts_once pausedWorld 8000 _)) _).
  - reflexivity.
  - eexists. reflexivity.
Defined.

(** X4.  [restartTimer] followed by [startTimer] on a paused engine begins
    a cycle of full duration, whatever remaining time had been saved. *)
Theorem restart_then_start_full_cycle (w : World) :
  running (vars w) = false ->
  (is_Some (timerElement (page w)) -> is_Some (toggleBtn (page w)) ->
   resumed_with cycleDurationMs w (restart_then_start script w)) /\
  resumed_with cycleDurationMs w (restart_then_start guarded w).
Proof.
  intros Hr.
  assert (forall w1 w3, restart_post w w1 -> start_post w1 w3 ->
            resumed_with cycleDurationMs w w3) as Hgen.
  { intros w1 w3 Pr Ps. pose proof (start_post_end _ _ Ps) as Hend.
    destruct Pr as (Hp & _ & _ & _ & _ & _ & He1 & Hc1 & _).
    destruct Ps as (Hr3 & _ & _ & Hst & _ & _ & _ & _ & _ & Hc3 & He3
                    & (Hclk & _)).
    rewrite Hp in Hend.
    change (resumeLeft (Int cycleDurationMs)) with cycleDurationMs in Hend.
    unfold resumed_with, remainingMs, phase_of.
    rewrite Hr3, Hend, Hclk, Hc3, Hc1, He3, He1, Hst. cbn.
    repeat split; storage. f_equal. lia. }
  split.
  - intros Ht Hg. unfold restart_then_start. cbn [script p_start p_restart].
    destruct (Script_restartTimer_ok w Ht) as (w1 & -> & Pr). cbn [final].
    assert (running (vars w1) = false) as Hr1.
    { destruct Pr as (_ & -> & _). exact Hr. }
    destruct (Script_startTimer_paused w1 Hr1) as (w3 & -> & Ps).
    { apply (is_Some_same ToggleBtn (page w)); [| exact Hg].
      apply (restart_post_elements _ _ Pr). }
    exact (Hgen w1 w3 Pr Ps).
  - unfold restart_then_start. cbn [guarded p_start p_restart].
    destruct (Guarded_restartTimer_ok w) as (w1 & -> & Pr). cbn [final].
    assert (running (vars w1) = false) as Hr1.
    { destruct Pr as (_ & -> & _). exact Hr. }
    destruct (Guarded_startTimer_paused w1 Hr1) as (w3 & -> & Ps).
    exact (Hgen w1 w3 Pr Ps).
Qed.

Lemma restart_then_start_full_cycle_witness :
  resumed_with cycleDurationMs pausedWorld
    (restart_then_start guarded pausedWorld).
Proof.
  refine (proj2 (restart_then_start_full_cycle pausedWorld _)). reflexivity.
Defined.

(** ** Muting *)

Lemma mute_roundtrip_posts (f : M unit) (w w1 w2 : World) :
  f w = Ok tt w1 -> f w1 = Ok tt w2 ->
  mute_post w w1 -> mute_post w1 w2 -> mute_roundtrip f w.
Proof.
  intros E1 E2 (V1 & S1 & T1 & _ & F1 & _) (V2 & S2 & T2 & _ & F2 & _).
  exists w1, w2. repeat split; try assumption.
  - rewrite S1. storage.
  - rewrite V2, V1. destruct (vars w) as [? ? ? ? m ? ?]. cbn.
    now rewrite negb_involutive.
  - rewrite S2, V1. cbn. rewrite negb_involutive. storage.
  - congruence.
  - congruence.
  - intros k Hk. rewrite S2, S1.
    rewrite !lookup_insert_ne by congruence. reflexivity.
Qed.

(** X5.  [toggleMute] flips the mute flag and stores it under
    [shanti_muted] without touching the phase, the timing variables, the
    count, the scheduler or the emitted effects; used twice it restores the
    variables and the stored flag, and no other key of the store changes.
    [script.js] needs its mute button. *)
Theorem toggleMute_twice (w : World) :
  (is_Some (muteBtn (page w)) -> mute_roundtrip Script.toggleMute w) /\
  mute_roundtrip Guarded.toggleMute w.
Proof.
  split.
  - intros Hm. destruct (Script_toggleMute_ok w Hm) as (w1 & E1 & P1).
    destruct (Script_toggleMute_ok w1) as (w2 & E2 & P2).
    { apply (is_Some_same MuteBtn (page w)); [| exact Hm].
      apply (mute_post_elements _ _ P1). }
    exact (mute_roundtrip_posts _ w w1 w2 E1 E2 P1 P2).
  - destruct (Guarded_toggleMute_ok w) as (w1 & E1 & P1).
    destruct (Guarded_toggleMute_ok w1) as (w2 & E2 & P2).
    exact (mute_roundtrip_posts _ w w1 w2 E1 E2 P1 P2).
Qed.

Lemma toggleMute_twice_witness : mute_roundtrip Script.toggleMute runningWorld.
Proof.
  apply (proj1 (toggleMute_twice runningWorld)). eexists. reflexivity.
Defined.

(** ** Ticks that do not finish *)

(** X6.  While the cycle has time left, [tick] only refreshes the display,
    which then shows that time as [msToMMSS] prints it: the variables, the
    store, the scheduler and the emitted effects are unchanged.  [script.js]
    needs its timer element. *)
Theorem tick_idle_spec (w : World) (e : Z) :
  endTimeMs (vars w) = Int e -> 0 < e - clock w ->
  (is_Some (timerElement (page w)) ->
   exists w', Script.tick w = Ok tt w' /\ idle_post (e - clock w) w w') /\
  (exists w', Guarded.tick w = Ok tt w' /\ idle_post (e - clock w) w w').
Proof.
  intros He Hgt. split.
  - intros Ht. now apply Script_tick_idle.
  - now apply Guarded_tick_idle.
Qed.

Lemma tick_idle_spec_witness :
  exists w', Script.tick runningWorld = Ok tt w' /\
             idle_post 10000 runningWorld w'.
Proof.
  refine (proj1 (tick_idle_spec runningWorld 11000 _ _) _).
  - reflexivity.
  - cbn. lia.
  - eexists. reflexivity.
Defined.

(** X7.  On a page without timer element a cycle that has run out is never
    finished: the guarded [tick] returns with the world unchanged, and the
    [tick] of [script.js] throws, also with the world unchanged.  So every
    later tick finds the same expired cycle, and the count stays as it
    is. *)
Theorem tick_without_display (w : World) (e : Z) :
  endTimeMs (vars w) = Int e -> e - clock w <= 0 ->
  timerElement (page w) = None ->
  Guarded.tick w = Ok tt w /\ Script.tick w = Throw w /\
  forall l : list nat,
    fold_left (fun v _ => final (Guarded.tick v)) l w = w /\
    fold_left (fun v _ => final (Script.tick v)) l w = w.
Proof.
  intros He Hle Ht.
  assert (Guarded.tick w = Ok tt w) as Hg
    by now apply (Guarded_tick_no_element w e).
  assert (Script.tick w = Throw w) as Hs.
  { destruct_world w. subst.
    unfold Script.tick, Script.onFinish. unfold_prims. cbn.
    apply Z.leb_le in Hle. now rewrite Hle. }
  repeat split; try assumption.
  - induction l as [| i l IH]; cbn; [reflexivity |]. now rewrite Hg.
  - induction l as [| i l IH]; cbn; [reflexivity |]. now rewrite Hs.
Qed.

Lemma tick_without_display_witness :
  Guarded.tick (with_page (fun _ => emptyPage) expiredWorld)
    = Ok tt (with_page (fun _ => emptyPage) expiredWorld).
Proof.
  refine (proj1 (tick_without_display
                   (with_page (fun _ => emptyPage) expiredWorld) 500 _ _ _)).
  - reflexivity.
  - cbn. lia.
  - reflexivity.
Defined.

(** ** [script.js] without its toggle button *)

(** X8.  Without a toggle button, [startTimer] and [pauseTimer] of
    [script.js] flip [running] and then throw, before the scheduler and the
    store are touched: a failed start leaves an engine that counts as
    running with no interval added, and a failed pause leaves the interval
    firing.  The guarded variant returns in both cases. *)
Theorem script_controls_without_toggle (w : World) :
  toggleBtn (page w) = None ->
  (running (vars w) = false ->
   Script.startTimer w = Throw (with_vars (set_running true) w) /\
   Script.startTimer (with_vars (set_running true) w)
     = Ok tt (with_vars (set_running true) w)) /\
  (running (vars w) = true ->
   Script.pauseTimer w = Throw (with_vars (set_running false) w)) /\
  (exists w', Guarded.startTimer w = Ok tt w') /\
  (exists w', Guarded.pauseTimer w = Ok tt w').
Proof.
  intros Hg. split; [| split; [| split]].
  - intros Hr. split.
    + destruct_world w. subst. unfold Script.startTimer. unfold_prims.
      reflexivity.
    + now apply Script_startTimer_running.
  - intros Hr. destruct_world w. subst. unfold Script.pauseTimer.
    unfold_prims. reflexivity.
  - destruct (running (vars w)) eqn:Hr.
    + rewrite Guarded_startTimer_running by exact Hr. eauto.
    + destruct (Guarded_startTimer_paused w Hr) as (w' & E & _). eauto.
  - destruct (running (vars w)) eqn:Hr.
    + destruct (Guarded_pauseTimer_running w Hr) as (w' & E & _). eauto.
    + rewrite Guarded_pauseTimer_paused by exact Hr. eauto.
Qed.

Lemma script_controls_without_toggle_witness :
  Script.startTimer (loadPage 1000 ∅ emptyPage true true true)
    = Throw (with_vars (set_running true)
               (loadPage 1000 ∅ emptyPage true true true)) /\
  Script.startTimer (with_vars (set_running true)
                       (loadPage 1000 ∅ emptyPage true true true))
    = Ok tt (with_vars (set_running true)
               (loadPage 1000 ∅ emptyPage true true true)).
Proof.
  refine (proj1 (script_controls_without_toggle
                   (loadPage 1000 ∅ emptyPage true true true) _) _);
    reflexivity.
Defined.

(** ** The store mirrors the engine *)

Lemma toString_truthy (a : jsnum) : truthy_str (Some (toString a)) = true.
Proof.
  destruct a as [z|]; [| reflexivity].
  pose proof (parseInt_toString z) as H. unfold toString.
  destruct (Z_toString z); [discriminate | reflexivity].
Qed.

Lemma parseInt_toString_num (a : jsnum) : parseInt (toString a) = a.
Proof. destruct a as [z|]; [apply parseInt_toString | reflexivity]. Qed.

Lemma restoredCount_insert_other (k v : string) (st : gmap string string) :
  k <> "shanti_session_count" ->
  restoredCount (<[k := v]> st) = restoredCount st.
Proof. intros H. unfold restoredCount. now rewrite lookup_insert_ne. Qed.

Lemma restoredRemaining_insert_other (k v : string)
    (st : gmap string string) :
  k <> "shanti_paused_remaining" ->
  restoredRemaining (<[k := v]> st) = restoredRemaining st.
Proof. intros H. unfold restoredRemaining. now rewrite lookup_insert_ne. Qed.

Lemma restoredRemaining_written (a : jsnum) (st : gmap string string) :
  restoredRemaining (<["shanti_paused_remaining" := toString a]> st) = a.
Proof.
  unfold restoredRemaining. rewrite lookup_insert_eq, toString_truthy.
  apply parseInt_toString_num.
Qed.

Lemma restoredCount_written (a : jsnum) (st : gmap string string) :
  restoredCount (<["shanti_session_count" := toString a]> st) = a.
Proof.
  unfold restoredCount. rewrite lookup_insert_eq, toString_truthy.
  apply parseInt_toString_num.
Qed.

Lemma persist_start (w w' : World) :
  persist_inv w -> start_post w w' -> persist_inv w'.
Proof.
  intros (Hm & Hc & _) P.
  destruct P as (Hr & _ & _ & Hst & _ & _ & _ & _ & Hm' & Hc' & _).
  unfold persist_inv. rewrite Hr, Hm', Hc', Hst, Hm, Hc.
  unfold restoredCount, restoredRemaining. repeat split; storage.
Qed.

Lemma persist_pause (w w' : World) :
  persist_inv w -> pause_post w w' -> persist_inv w'.
Proof.
  intros (Hm & Hc & _) P.
  destruct P as (Hr & _ & _ & _ & _ & _ & _ & Hst & _ & Hm' & Hc' & _).
  unfold persist_inv. rewrite Hr, Hm', Hc', Hst, Hm, Hc.
  rewrite restoredRemaining_written.
  unfold restoredCount. repeat split; storage.
Qed.

Lemma persist_restart (w w' : World) :
  persist_inv w -> restart_post w w' -> persist_inv w'.
Proof.
  intros (Hm & Hc & Hrun) P.
  destruct P as (Hp & Hr & _ & _ & _ & Hst & _ & Hc' & Hm' & _).
  unfold persist_inv. rewrite Hr, Hm', Hc', Hst, Hm, Hc, Hp.
  assert (restoredRemaining
            (<["shanti_paused_remaining" := "60000"]> (localStorage w))
          = Int cycleDurationMs) as Hrem.
  { unfold restoredRemaining. rewrite lookup_insert_eq. reflexivity. }
  rewrite Hrem. unfold restoredCount.
  destruct (running (vars w)); destruct Hrun as [Hk _];
    repeat split; storage.
Qed.

Lemma persist_finish (w w' : World) :
  persist_inv w -> finish_post w w' -> persist_inv w'.
Proof.
  intros (Hm & _ & Hrun) P.
  destruct P as (_ & _ & _ & _ & Hst & _ & _ & Hr & Hp & Hm' & _).
  unfold persist_inv. rewrite Hr, Hm', Hp, Hst, Hm.
  rewrite restoredCount_written.
  rewrite restoredRemaining_insert_other by discriminate.
  destruct (running (vars w)); destruct Hrun as [Hk Hrem];
    repeat split; storage.
Qed.

Lemma persist_idle (left : Z) (w w' : World) :
  persist_inv w -> idle_post left w w' -> persist_inv w'.
Proof.
  intros H (V & _ & (_ & Hst & _)). unfold persist_inv in *.
  now rewrite V, Hst.
Qed.

Lemma persist_mute (w w' : World) :
  persist_inv w -> mute_post w w' -> persist_inv w'.
Proof.
  intros (Hm & Hc & Hrun) (V & Hst & _).
  unfold persist_inv. rewrite V, Hst. cbn.
  rewrite restoredCount_insert_other by discriminate.
  rewrite restoredRemaining_insert_other by discriminate.
  split; [| split; [exact Hc |]].
  - rewrite lookup_insert_eq. now destruct (muted (vars w)).
  - destruct (running (vars w)); destruct Hrun as [Hk Hrem];
      repeat split; storage.
Qed.

Lemma persist_advance (d : N) (w : World) :
  persist_inv w -> persist_inv (advance (Z.of_N d) w).
Proof. intros H. exact H. Qed.

Lemma persist_boot (started : bool) now store pg (w' : World) :
  (started = false -> store !! "shanti_running" = Some "0") ->
  boot_post started now store pg w' -> persist_inv w'.
Proof.
  intros Hz (_ & _ & _ & Hm & Hc & Hp & Hr & Hrest).
  unfold persist_inv. rewrite Hm, Hc, Hp, Hr.
  destruct started; destruct Hrest as (_ & _ & _ & _ & ->).
  - unfold restoredCount, restoredRemaining. repeat split; storage.
  - repeat split. now apply Hz.
Qed.

Lemma full_end (w : World) :
  full_inv w -> exists e, endTimeMs (vars w) = Int e.
Proof. intros [H _]. now apply sched_end. Qed.

Lemma full_start (w w' : World) : full_inv w -> start_post w w' -> full_inv w'.
Proof.
  intros [H1 H2] P. split; [eapply sched_start | eapply persist_start]; eauto.
Qed.

Lemma full_pause (w w' : World) : full_inv w -> pause_post w w' -> full_inv w'.
Proof.
  intros [H1 H2] P. split; [eapply sched_pause | eapply persist_pause]; eauto.
Qed.

Lemma full_restart (w w' : World) :
  full_inv w -> restart_post w w' -> full_inv w'.
Proof.
  intros [H1 H2] P.
  split; [eapply sched_restart | eapply persist_restart]; eauto.
Qed.

Lemma full_finish (w w' : World) :
  full_inv w -> finish_post w w' -> full_inv w'.
Proof.
  intros [H1 H2] P.
  split; [eapply sched_finish | eapply persist_finish]; eauto.
Qed.

Lemma full_idle (left : Z) (w w' : World) :
  full_inv w -> idle_post left w w' -> full_inv w'.
Proof.
  intros [H1 H2] P. split; [eapply sched_idle | eapply persist_idle]; eauto.
Qed.

Lemma full_mute (w w' : World) : full_inv w -> mute_post w w' -> full_inv w'.
Proof.
  intros [H1 H2] P. split; [eapply sched_mute | eapply persist_mute]; eauto.
Qed.

Lemma str_is_zero (o : option string) :
  negb (str_is o "0") = false -> o = Some "0".
Proof.
  destruct o as [s|]; cbn; [| discriminate].
  intros H. apply negb_false_iff, String.eqb_eq in H. now subst.
Qed.

Lemma script_boot_full now store pg audio vib auto :
  page_complete pg ->
  exists w',
    Script.onDOMContentLoaded (loadPage now store pg audio vib auto)
      = Ok tt w' /\
    boot_post (negb (str_is (store !! "shanti_running") "0")) now store pg w' /\
    full_inv w' /\ page_complete (page w').
Proof.
  intros Hpg.
  destruct (Script_boot now store pg audio vib auto Hpg) as (w' & E & P).
  exists w'. split; [exact E |]. split; [exact P |]. split; [split |].
  - exact (sched_boot _ _ _ _ _ P).
  - exact (persist_boot _ now store pg w' (str_is_zero _) P).
  - eapply page_complete_same; [eapply boot_post_elements |]; eauto.
Qed.

Lemma guarded_boot_full now store pg audio vib auto :
  exists w',
    Guarded.initApp (loadPage now store pg audio vib auto) = Ok tt w' /\
    boot_post true now store pg w' /\ full_inv w'.
Proof.
  destruct (Guarded_boot now store pg audio vib auto) as (w' & E & P).
  exists w'. split; [exact E |]. split; [exact P |]. split.
  - exact (sched_boot _ _ _ _ _ P).
  - exact (persist_boot true now store pg w' ltac:(intros [=]) P).
Qed.

Lemma script_step_full (o : op) (w : World) :
  page_complete (page w) -> full_inv w ->
  full_inv (step script o w) /\ page_complete (page (step script o w)).
Proof.
  intros Hpg Hinv.
  destruct o; cbn [step script p_start p_pause p_toggle p_restart p_mute
                     p_tick p_init p_key].
  - now apply (script_start_inv full_inv full_start).
  - now apply (script_pause_inv full_inv full_pause).
  - now apply (script_toggle_inv full_inv full_start full_pause).
  - now apply (script_restart_inv full_inv full_restart).
  - now apply (script_mute_inv full_inv full_mute).
  - unfold Script.handleKeyboardShortcuts.
    destruct (_ || _); [now split |].
    destruct (String.eqb key " ");
      [now apply (script_toggle_inv full_inv full_start full_pause) |].
    destruct (_ || _);
      [now apply (script_restart_inv full_inv full_restart) |].
    destruct (_ || _);
      [now apply (script_mute_inv full_inv full_mute) | now split].
  - now apply (script_ticks_inv full_inv full_end full_finish full_idle).
  - split; [exact Hinv | exact Hpg].
  - unfold reload.
    destruct (script_boot_full (clock w) (localStorage w) (page w)
                (webAudio w) (canVibrate w) (autoplay w) Hpg)
      as (w' & E & _ & H1 & H2).
    rewrite E. now split.
Qed.

Lemma guarded_step_full (o : op) (w : World) :
  full_inv w -> full_inv (step guarded o w).
Proof.
  intros Hinv.
  destruct o; cbn [step guarded p_start p_pause p_toggle p_restart p_mute
                     p_tick p_init p_key].
  - now apply (guarded_start_inv full_inv full_start).
  - now apply (guarded_pause_inv full_inv full_pause).
  - now apply (guarded_toggle_inv full_inv full_start full_pause).
  - now apply (guarded_restart_inv full_inv full_restart).
  - now apply (guarded_mute_inv full_inv full_mute).
  - unfold Guarded.handleKeyboardShortcuts.
    destruct (_ || _); [exact Hinv |].
    destruct (String.eqb key " ");
      [now apply (guarded_toggle_inv full_inv full_start full_pause) |].
    destruct (_ || _);
      [now apply (guarded_restart_inv full_inv full_restart) |].
    destruct (_ || _);
      [now apply (guarded_mute_inv full_inv full_mute) | exact Hinv].
  - now apply (guarded_ticks_inv full_inv full_end full_finish full_idle).
  - exact Hinv.
  - unfold reload.
    destruct (guarded_boot_full (clock w) (localStorage w) (page w)
                (webAudio w) (canVibrate w) (autoplay w))
      as (w' & E & _ & H1).
    now rewrite E.
Qed.

Lemma script_reachable_full now store pg audio vib auto (w : World) :
  page_complete pg ->
  reachable script (loadPage now store pg audio vib auto) w ->
  full_inv w /\ page_complete (page w).
Proof.
  intros Hpg Hreach. induction Hreach as [| w o _ [IH1 IH2]].
  - cbn [script p_init].
    destruct (script_boot_full now store pg audio vib auto Hpg)
      as (w' & E & _ & H1 & H2).
    rewrite E. now split.
  - now apply script_step_full.
Qed.

Lemma guarded_reachable_full now store pg audio vib auto (w : World) :
  reachable guarded (loadPage now store pg audio vib auto) w ->
  full_inv w.
Proof.
  intros Hreach. induction Hreach as [| w o _ IH].
  - cbn [guarded p_init].
    destruct (guarded_boot_full now store pg audio vib auto)
      as (w' & E & _ & H1).
    now rewrite E.
  - now apply guarded_step_full.
Qed.

(** *** Within the exact range *)

Lemma reachable_safe_reachable (P : program) (w0 w : World) :
  reachable_safe P w0 w -> reachable P w0 w /\ count_safe w.
Proof.
  induction 1 as [H | w o _ [IH _] H].
  - split; [apply reach_init | exact H].
  - split; [now apply reach_step | exact H].
Qed.

Lemma ascii_only_string_of_uint (d : Decimal.uint) :
  ascii_only (NilEmpty.string_of_uint d) = true.
Proof. induction d; cbn; auto. Qed.

Lemma ascii_only_Z_toString (z : Z) : ascii_only (Z_toString z) = true.
Proof.
  unfold Z_toString.
  destruct (Z.to_int z) as [d | d]; cbn [NilZero.string_of_int];
    unfold NilZero.string_of_uint;
    destruct d; first [reflexivity | exact (ascii_only_string_of_uint _)].
Qed.

Lemma safe_value_toString (a : jsnum) :
  safe_num a -> safe_value (Some (toString a)).
Proof.
  intros H. split.
  - destruct a; [apply ascii_only_Z_toString | reflexivity].
  - now rewrite parseInt_toString_num.
Qed.

Lemma safe_value_full : safe_value (Some "60000").
Proof.
  split; [reflexivity |]. change (parseInt "60000") with (Int 60000).
  unfold safe_num, safe_int, MAX_SAFE_INTEGER. lia.
Qed.

Lemma safe_start (w w' : World) : safe_inv w -> start_post w w' -> safe_inv w'.
Proof.
  intros (Hf & _ & _ & Hc) P. pose proof (start_post_end _ _ P) as Hend.
  pose proof (resumeLeft_bounds (pausedRemainingMs (vars w))) as Hb.
  split; [exact (full_start _ _ Hf P) |].
  destruct P as (_ & _ & _ & Hst & _ & _ & _ & _ & _ & Hc' & _ & (Hclk & _)).
  split; [| split].
  - intros _. eexists. split; [exact Hend |]. rewrite Hclk. lia.
  - rewrite Hst, lookup_delete_eq. exact I.
  - unfold count_safe. rewrite Hc', Hst.
    rewrite lookup_delete_ne, lookup_insert_ne by discriminate. exact Hc.
Qed.

Lemma safe_pause (w w' : World) :
  running (vars w) = true -> safe_inv w -> pause_post w w' -> safe_inv w'.
Proof.
  intros Hrun (Hf & Hk & _ & Hc) P.
  split; [exact (full_pause _ _ Hf P) |].
  destruct (Hk Hrun) as (e & He & Hle).
  destruct P as (Hr & _ & Hp & _ & _ & _ & _ & Hst & _ & _ & Hc' & _).
  specialize (Hp e He). split; [| split].
  - intros H. rewrite Hr in H. discriminate.
  - rewrite Hst, lookup_insert_eq. apply safe_value_toString.
    rewrite Hp. unfold safe_num, safe_int, MAX_SAFE_INTEGER.
    unfold cycleDurationMs, DURATION in Hle. lia.
  - unfold count_safe. rewrite Hc', Hst.
    rewrite !lookup_insert_ne by discriminate. exact Hc.
Qed.

Lemma safe_restart (w w' : World) :
  safe_inv w -> restart_post w w' -> safe_inv w'.
Proof.
  intros (Hf & _ & _ & Hc) P.
  split; [exact (full_restart _ _ Hf P) |].
  destruct P as (_ & Hr & He & _ & _ & Hst & _ & Hc' & _ & _ & _ & _
                 & (Hclk & _)).
  split; [| split].
  - intros H. rewrite Hr in H. eexists. split; [exact (He H) |].
    rewrite Hclk. lia.
  - rewrite Hst, lookup_insert_eq. exact safe_value_full.
  - unfold count_safe. rewrite Hc', Hst.
    rewrite lookup_insert_ne by discriminate. exact Hc.
Qed.

Lemma safe_finish (w w' : World) :
  safe_inv w -> finish_post w w' -> safe_inv w'.
Proof.
  intros (Hf & _ & Hp & _) P.
  split; [exact (full_finish _ _ Hf P) |].
  destruct P as (_ & _ & _ & _ & Hst & He & _ & _ & _ & _ & _ & _ & _
                 & (Hclk & _)).
  split; [| split].
  - intros _. eexists. split; [exact He |]. rewrite Hclk. lia.
  - rewrite Hst, lookup_insert_ne by discriminate. exact Hp.
  - intros H. rewrite Hst, lookup_insert_eq. now apply safe_value_toString.
Qed.

Lemma safe_idle (left : Z) (w w' : World) :
  safe_inv w -> idle_post left w w' -> safe_inv w'.
Proof.
  intros (Hf & Hk & Hp & Hc) P.
  split; [exact (full_idle _ _ _ Hf P) |].
  destruct P as (V & _ & ((Hclk & _) & Hst & _)).
  unfold cycle_bound, count_safe. rewrite V, Hst, Hclk. auto.
Qed.

Lemma safe_mute (w w' : World) : safe_inv w -> mute_post w w' -> safe_inv w'.
Proof.
  intros (Hf & Hk & Hp & Hc) P.
  split; [exact (full_mute _ _ Hf P) |].
  destruct P as (V & Hst & _ & _ & _ & (Hclk & _)).
  unfold cycle_bound, count_safe. rewrite V, Hst, Hclk.
  rewrite !lookup_insert_ne by discriminate. auto.
Qed.

Lemma safe_advance (d : N) (w : World) :
  safe_inv w -> safe_inv (advance (Z.of_N d) w).
Proof.
  intros (Hf & Hk & Hp & Hc). split; [exact Hf |].
  split; [| split; [exact Hp | exact Hc]].
  intros H. destruct (Hk H) as (e & He & Hle).
  exists e. split; [exact He |]. cbn. lia.
Qed.

Lemma safe_end (w : World) :
  safe_inv w -> exists e, endTimeMs (vars w) = Int e.
Proof. intros [H _]. now apply full_end. Qed.

Lemma safe_boot (started : bool) now store pg (w' : World) :
  (started = false -> store !! "shanti_running" = Some "0") ->
  safe_value (store !! "shanti_paused_remaining") ->
  (safe_num (restoredCount store) ->
   safe_value (store !! "shanti_session_count")) ->
  boot_post started now store pg w' -> safe_inv w'.
Proof.
  intros Hz Hp Hc P.
  pose proof (resumeLeft_bounds (restoredRemaining store)) as Hb.
  split; [split; [exact (sched_boot _ _ _ _ _ P)
                 | exact (persist_boot _ _ _ _ _ Hz P)] |].
  destruct P as (Hclk & _ & _ & _ & Hcnt & _ & Hr & Hrest).
  unfold cycle_bound, count_safe. rewrite Hcnt, Hr, Hclk.
  destruct started; destruct Hrest as (He & _ & _ & _ & ->).
  - split; [| split].
    + intros _. eexists. split; [exact He |]. lia.
    + rewrite lookup_delete_eq. exact I.
    + rewrite lookup_delete_ne, lookup_insert_ne by discriminate. exact Hc.
  - split; [intros [=] | split; [exact Hp | exact Hc]].
Qed.

Lemma safe_reload_values (w : World) :
  safe_inv w ->
  safe_value (localStorage w !! "shanti_paused_remaining") /\
  (safe_num (restoredCount (localStorage w)) ->
   safe_value (localStorage w !! "shanti_session_count")).
Proof.
  intros ((_ & _ & Hcnt & _) & _ & Hp & Hc). split; [exact Hp |].
  intros H. apply Hc. unfold count_safe. now rewrite Hcnt.
Qed.

Lemma script_boot_safe now store pg audio vib auto :
  page_complete pg ->
  safe_value (store !! "shanti_paused_remaining") ->
  (safe_num (restoredCount store) ->
   safe_value (store !! "shanti_session_count")) ->
  exists w',
    Script.onDOMContentLoaded (loadPage now store pg audio vib auto)
      = Ok tt w' /\
    safe_inv w' /\ page_complete (page w').
Proof.
  intros Hpg Hp Hc.
  destruct (Script_boot now store pg audio vib auto Hpg) as (w' & E & P).
  exists w'. split; [exact E |]. split.
  - exact (safe_boot _ now store pg w' (str_is_zero _) Hp Hc P).
  - eapply page_complete_same; [eapply boot_post_elements |]; eauto.
Qed.

Lemma guarded_boot_safe now store pg audio vib auto :
  safe_value (store !! "shanti_paused_remaining") ->
  (safe_num (restoredCount store) ->
   safe_value (store !! "shanti_session_count")) ->
  exists w',
    Guarded.initApp (loadPage now store pg audio vib auto) = Ok tt w' /\
    safe_inv w'.
Proof.
  intros Hp Hc.
  destruct (Guarded_boot now store pg audio vib auto) as (w' & E & P).
  exists w'. split; [exact E |].
  exact (safe_boot true now store pg w' ltac:(intros [=]) Hp Hc P).
Qed.

Lemma script_pause_safe (w : World) :
  page_complete (page w) -> safe_inv w ->
  safe_inv (final (Script.pauseTimer w)) /\
  page_complete (page (final (Script.pauseTimer w))).
Proof.
  intros Hpg Hinv. destruct (running (vars w)) eqn:Hr.
  - destruct (Script_pauseTimer_running w Hr) as (w' & E & P); [apply Hpg |].
    rewrite E. split; [exact (safe_pause _ _ Hr Hinv P) |].
    eapply page_complete_same; [eapply pause_post_elements |]; eauto.
  - rewrite Script_pauseTimer_paused by exact Hr. now split.
Qed.

Lemma script_toggle_safe (w : World) :
  page_complete (page w) -> safe_inv w ->
  safe_inv (final (Script.toggleTimer w)) /\
  page_complete (page (final (Script.toggleTimer w))).
Proof.
  intros Hpg Hinv. rewrite Script_toggleTimer_eq.
  destruct (running (vars w));
    [now apply script_pause_safe
    | now apply (script_start_inv safe_inv safe_start)].
Qed.

Lemma guarded_pause_safe (w : World) :
  safe_inv w -> safe_inv (final (Guarded.pauseTimer w)).
Proof.
  intros Hinv. destruct (running (vars w)) eqn:Hr.
  - destruct (Guarded_pauseTimer_running w Hr) as (w' & E & P).
    rewrite E. exact (safe_pause _ _ Hr Hinv P).
  - now rewrite Guarded_pauseTimer_paused by exact Hr.
Qed.

Lemma guarded_toggle_safe (w : World) :
  safe_inv w -> safe_inv (final (Guarded.toggleTimer w)).
Proof.
  intros Hinv. rewrite Guarded_toggleTimer_eq.
  destruct (running (vars w));
    [now apply guarded_pause_safe
    | now apply (guarded_start_inv safe_inv safe_start)].
Qed.

Lemma script_step_safe (o : op) (w : World) :
  page_complete (page w) -> safe_inv w ->
  safe_inv (step script o w) /\ page_complete (page (step script o w)).
Proof.
  intros Hpg Hinv.
  destruct o; cbn [step script p_start p_pause p_toggle p_restart p_mute
                     p_tick p_init p_key].
  - now apply (script_start_inv safe_inv safe_start).
  - now apply script_pause_safe.
  - now apply script_toggle_safe.
  - now apply (script_restart_inv safe_inv safe_restart).
  - now apply (script_mute_inv safe_inv safe_mute).
  - unfold Script.handleKeyboardShortcuts.
    destruct (_ || _); [now split |].
    destruct (String.eqb key " "); [now apply script_toggle_safe |].
    destruct (_ || _);
      [now apply (script_restart_inv safe_inv safe_restart) |].
    destruct (_ || _);
      [now apply (script_mute_inv safe_inv safe_mute) | now split].
  - now apply (script_ticks_inv safe_inv safe_end safe_finish safe_idle).
  - split; [now apply safe_advance | exact Hpg].
  - unfold reload. destruct (safe_reload_values w Hinv) as [Hp Hc].
    destruct (script_boot_safe (clock w) (localStorage w) (page w)
                (webAudio w) (canVibrate w) (autoplay w) Hpg Hp Hc)
      as (w' & E & H1 & H2).
    rewrite E. now split.
Qed.

Lemma guarded_step_safe (o : op) (w : World) :
  safe_inv w -> safe_inv (step guarded o w).
Proof.
  intros Hinv.
  destruct o; cbn [step guarded p_start p_pause p_toggle p_restart p_mute
                     p_tick p_init p_key].
  - now apply (guarded_start_inv safe_inv safe_start).
  - now apply guarded_pause_safe.
  - now apply guarded_toggle_safe.
  - now apply (guarded_restart_inv safe_inv safe_restart).
  - now apply (guarded_mute_inv safe_inv safe_mute).
  - unfold Guarded.handleKeyboardShortcuts.
    destruct (_ || _); [exact Hinv |].
    destruct (String.eqb key " "); [now apply guarded_toggle_safe |].
    destruct (_ || _);
      [now apply (guarded_restart_inv safe_inv safe_restart) |].
    destruct (_ || _);
      [now apply (guarded_mute_inv safe_inv safe_mute) | exact Hinv].
  - now apply (guarded_ticks_inv safe_inv safe_end safe_finish safe_idle).
  - now apply safe_advance.
  - unfold reload. destruct (safe_reload_values w Hinv) as [Hp Hc].
    destruct (guarded_boot_safe (clock w) (localStorage w) (page w)
                (webAudio w) (canVibrate w) (autoplay w) Hp Hc)
      as (w' & E & H1).
    now rewrite E.
Qed.

Lemma script_reachable_safe_inv now store pg audio vib auto (w : World) :
  safe_store store -> page_complete pg ->
  reachable script (loadPage now store pg audio vib auto) w ->
  safe_inv w /\ page_complete (page w).
Proof.
  intros [Hc Hp] Hpg Hreach. induction Hreach as [| w o _ [IH1 IH2]].
  - cbn [script p_init].
    destruct (script_boot_safe now store pg audio vib auto Hpg Hp
                (fun _ => Hc)) as (w' & E & H1 & H2).
    rewrite E. now split.
  - now apply script_step_safe.
Qed.

Lemma guarded_reachable_safe_inv now store pg audio vib auto (w : World) :
  safe_store store ->
  reachable guarded (loadPage now store pg audio vib auto) w ->
  safe_inv w.
Proof.
  intros [Hc Hp] Hreach. induction Hreach as [| w o _ IH].
  - cbn [guarded p_init].
    destruct (guarded_boot_safe now store pg audio vib auto Hp
                (fun _ => Hc)) as (w' & E & H1).
    now rewrite E.
  - now apply guarded_step_safe.
Qed.

Lemma safe_inv_mirror (w : World) :
  safe_inv w -> count_safe w ->
  persist_inv w /\ safe_store (localStorage w).
Proof.
  intros ((_ & Hpi) & _ & Hp & Hc) Hs.
  split; [exact Hpi |]. split; [now apply Hc | exact Hp].
Qed.

Lemma safe_store_empty : safe_store ∅.
Proof. unfold safe_store. rewrite !lookup_empty. split; exact I. Qed.

(** Sample runs within the safe range. *)
Lemma script_pause_run_safe :
  reachable_safe script (loadPage 1000 ∅ fullPage true true true)
    (step script OpPause
       (final (Script.onDOMContentLoaded
                 (loadPage 1000 ∅ fullPage true true true)))).
Proof.
  apply (safe_step script); [apply (safe_init script) |];
    vm_compute; split; discriminate.
Qed.

Lemma guarded_pause_run_safe (pg : Page) :
  pg = fullPage \/ pg = emptyPage ->
  reachable_safe guarded (loadPage 1000 ∅ pg true true true)
    (step guarded OpPause
       (final (Guarded.initApp (loadPage 1000 ∅ pg true true true)))).
Proof.
  intros [-> | ->];
    (apply (safe_step guarded); [apply (safe_init guarded) |]);
    vm_compute; split; discriminate.
Qed.

Lemma script_boot_run_safe :
  reachable_safe script (loadPage 1000 ∅ fullPage true true true)
    (final (Script.onDOMContentLoaded
              (loadPage 1000 ∅ fullPage true true true))).
Proof. apply (safe_init script). vm_compute. split; discriminate. Qed.

(** X9.  Take a page load whose stored count and stored remaining time
    are safe values (ASCII characters, reading as a safe integer or as no
    number), and a run on which the count stays a safe integer (or NaN).
    In every state so reached the store mirrors the engine: the stored
    mute flag and count are the ones in the variables; "1" is stored under
    [shanti_running] while running and "0" while paused; while paused the
    stored remaining time reads back as [pausedRemainingMs], and while
    running none is stored but possibly a full cycle's.  The stored count
    and remaining time are again safe values. *)
Theorem store_mirrors_engine now store pg audio vib auto (w : World) :
  safe_store store ->
  (page_complete pg ->
   reachable_safe script (loadPage now store pg audio vib auto) w ->
   persist_inv w /\ safe_store (localStorage w)) /\
  (reachable_safe guarded (loadPage now store pg audio vib auto) w ->
   persist_inv w /\ safe_store (localStorage w)).
Proof.
  intros Hs. split.
  - intros Hpg Hr. apply reachable_safe_reachable in Hr as [Hr Hc].
    apply safe_inv_mirror; [| exact Hc].
    now apply (script_reachable_safe_inv now store pg audio vib auto w Hs Hpg).
  - intros Hr. apply reachable_safe_reachable in Hr as [Hr Hc].
    apply safe_inv_mirror; [| exact Hc].
    now apply (guarded_reachable_safe_inv now store pg audio vib auto w Hs).
Qed.

Lemma store_mirrors_engine_witness :
  persist_inv
    (step guarded OpPause
       (final (Guarded.initApp (loadPage 1000 ∅ emptyPage true true true)))) /\
  safe_store
    (localStorage
       (step guarded OpPause
          (final (Guarded.initApp
                    (loadPage 1000 ∅ emptyPage true true true))))).
Proof.
  refine (proj2 (store_mirrors_engine 1000 ∅ emptyPage true true true _
                   safe_store_empty) _).
  apply guarded_pause_run_safe. now right.
Defined.

(** ** Reloading the page *)

Lemma resumeLeft_full : resumeLeft (Int cycleDurationMs) = cycleDurationMs.
Proof. reflexivity. Qed.

(** X10.  Take a page load whose stored count and remaining time are safe
    values and a run on which the count stays a safe integer (or NaN).
    Reloading [script.js] in a state so reached keeps the phase, the mute
    flag and the count.  A paused engine comes back with the same
    [pausedRemainingMs], nothing scheduled and the store untouched; a
    running engine comes back running a cycle of full duration, whatever
    time the cycle had left before the reload. *)
Theorem script_reload_keeps_state now store pg audio vib auto (w : World) :
  safe_store store -> page_complete pg ->
  reachable_safe script (loadPage now store pg audio vib auto) w ->
  script_reload_post w (step script OpReload w).
Proof.
  intros _ Hpg Hreach. apply reachable_safe_reachable in Hreach as [Hreach _].
  destruct (script_reachable_full now store pg audio vib auto w Hpg Hreach)
    as [[_ (Hm & Hc & Hrun)] Hpgw].
  cbn [step script p_init]. unfold reload.
  destruct (script_boot_full (clock w) (localStorage w) (page w)
              (webAudio w) (canVibrate w) (autoplay w) Hpgw)
    as (w' & -> & P & _). cbn [final].
  unfold script_reload_post, phase_of.
  destruct (running (vars w)); destruct Hrun as [Hk Hrem];
    rewrite Hk in P; cbn in P;
    destruct P as (_ & _ & _ & Hm' & Hc' & Hp' & -> & He' & _ & Ht' & _ & Hst');
    rewrite Hm', Hc', <- Hm, <- Hc; repeat split; try assumption.
  - rewrite He', Hrem. reflexivity.
  - now rewrite Hp', Hrem.
Qed.

Lemma script_reload_keeps_state_witness :
  script_reload_post
    (step script OpPause
       (final (Script.onDOMContentLoaded
                 (loadPage 1000 ∅ fullPage true true true))))
    (step script OpReload
       (step script OpPause
          (final (Script.onDOMContentLoaded
                    (loadPage 1000 ∅ fullPage true true true))))).
Proof.
  exact (script_reload_keeps_state 1000 ∅ fullPage true true true _
           safe_store_empty fullPage_complete script_pause_run_safe).
Defined.

(** X11.  Take a page load whose stored count and remaining time are safe
    values and a run on which the count stays a safe integer (or NaN).
    Reloading the guarded variant in a state so reached always yields a
    running engine with one interval scheduled, "1" stored under
    [shanti_running] and the mute flag and count kept.  After a reload
    while paused the cycle has the saved remaining time to run when that
    is strictly between 0 and the cycle duration, else a full cycle; after
    a reload while running it has a full cycle to run. *)
Theorem guarded_reload_restarts now store pg audio vib auto (w : World) :
  safe_store store ->
  reachable_safe guarded (loadPage now store pg audio vib auto) w ->
  guarded_reload_post w (step guarded OpReload w).
Proof.
  intros _ Hreach. apply reachable_safe_reachable in Hreach as [Hreach _].
  destruct (guarded_reachable_full now store pg audio vib auto w Hreach)
    as [_ (Hm & Hc & Hrun)].
  cbn [step guarded p_init]. unfold reload.
  destruct (guarded_boot_full (clock w) (localStorage w) (page w)
              (webAudio w) (canVibrate w) (autoplay w))
    as (w' & -> & P & _). cbn [final].
  destruct P as (_ & _ & _ & Hm' & Hc' & _ & Hr' & He' & _ & Ht' & _ & Hst').
  unfold guarded_reload_post, phase_of.
  rewrite Hr', Hm', Hc', <- Hm, <- Hc, Hst', He', Ht'.
  repeat split; storage.
  destruct (running (vars w)); destruct Hrun as [Hk Hrem]; now rewrite Hrem.
Qed.

Lemma guarded_reload_restarts_witness :
  guarded_reload_post
    (step guarded OpPause
       (final (Guarded.initApp (loadPage 1000 ∅ fullPage true true true))))
    (step guarded OpReload
       (step guarded OpPause
          (final (Guarded.initApp
                    (loadPage 1000 ∅ fullPage true true true))))).
Proof.
  refine (guarded_reload_restarts 1000 ∅ fullPage true true true _
            safe_store_empty _).
  apply guarded_pause_run_safe. now left.
Defined.

(** ** What changes the count *)

Lemma mute_post_count (w w' : World) :
  mute_post w w' -> sessionCount (vars w') = sessionCount (vars w).
Proof. intros (V & _). now rewrite V. Qed.

Lemma script_count_toggle (w : World) :
  page_complete (page w) ->
  sessionCount (vars (final (Script.toggleTimer w))) = sessionCount (vars w).
Proof.
  intros Hpg. rewrite Script_toggleTimer_eq.
  destruct (running (vars w)) eqn:Hr.
  - destruct (Script_pauseTimer_running w Hr) as (w' & -> & P);
      [apply Hpg |]. apply P.
  - destruct (Script_startTimer_paused w Hr) as (w' & -> & P);
      [apply Hpg |]. apply P.
Qed.

Lemma guarded_count_toggle (w : World) :
  sessionCount (vars (final (Guarded.toggleTimer w))) = sessionCount (vars w).
Proof.
  rewrite Guarded_toggleTimer_eq.
  destruct (running (vars w)) eqn:Hr.
  - destruct (Guarded_pauseTimer_running w Hr) as (w' & -> & P). apply P.
  - destruct (Guarded_startTimer_paused w Hr) as (w' & -> & P). apply P.
Qed.

Lemma script_count_restart (w : World) :
  page_complete (page w) ->
  sessionCount (vars (final (Script.restartTimer w))) = sessionCount (vars w).
Proof.
  intros Hpg.
  destruct (Script_restartTimer_ok w) as (w' & -> & P); [apply Hpg |].
  apply P.
Qed.

Lemma script_count_mute (w : World) :
  page_complete (page w) ->
  sessionCount (vars (final (Script.toggleMute w))) = sessionCount (vars w).
Proof.
  intros Hpg.
  destruct (Script_toggleMute_ok w) as (w' & -> & P); [apply Hpg |].
  now apply mute_post_count.
Qed.

Lemma sched_inv_timers_cases (w : World) :
  sched_inv w ->
  (timers w = [] /\ running (vars w) = false) \/
  (exists i, timers w = [i] /\ running (vars w) = true).
Proof.
  intros [(_ & H) _]. destruct (intervalId (vars w)) as [i|].
  - right. exists i. destruct H as (? & ? & _). auto.
  - left. destruct H. auto.
Qed.

Lemma script_count_step now store pg audio vib auto (w : World) (o : op) :
  page_complete pg ->
  reachable script (loadPage now store pg audio vib auto) w ->
  count_step script o w.
Proof.
  intros Hpg Hreach.
  destruct (script_reachable_full now store pg audio vib auto w Hpg Hreach)
    as [[Hs (_ & Hc & _)] Hpgw].
  unfold count_step.
  destruct o; cbn [step script p_start p_pause p_toggle p_restart p_mute
                     p_tick p_init p_key].
  - left. destruct (running (vars w)) eqn:Hr.
    + now rewrite Script_startTimer_running.
    + destruct (Script_startTimer_paused w Hr) as (w' & -> & P);
        [apply Hpgw |]. apply P.
  - left. destruct (running (vars w)) eqn:Hr.
    + destruct (Script_pauseTimer_running w Hr) as (w' & -> & P);
        [apply Hpgw |]. apply P.
    + now rewrite Script_pauseTimer_paused.
  - left. now apply script_count_toggle.
  - left. now apply script_count_restart.
  - left. now apply script_count_mute.
  - left. unfold Script.handleKeyboardShortcuts.
    destruct (_ || _); [reflexivity |].
    destruct (String.eqb key " "); [now apply script_count_toggle |].
    destruct (_ || _); [now apply script_count_restart |].
    destruct (_ || _); [now apply script_count_mute | reflexivity].
  - unfold fireAll. cbn [script p_tick].
    destruct (sched_inv_timers_cases w Hs) as [[-> _] | (i & -> & Hr)];
      [left; reflexivity |].
    cbn [fold_left]. destruct (sched_end w Hs) as (e & He).
    destruct (Z_le_gt_dec (e - clock w) 0) as [Hle | Hgt].
    + right. destruct (Script_tick_finish w e He Hle) as (w' & -> & P);
        [apply Hpgw | apply Hpgw |].
      cbn [final]. repeat split.
      * unfold phase_of. now rewrite Hr.
      * apply P.
      * now apply finishCount_finish.
    + left. destruct (Script_tick_idle w e He ltac:(lia)) as (w' & -> & P);
        [apply Hpgw |].
      cbn [final]. destruct P as (-> & _). reflexivity.
  - left. reflexivity.
  - left. unfold reload.
    destruct (script_boot_full (clock w) (localStorage w) (page w)
                (webAudio w) (canVibrate w) (autoplay w) Hpgw)
      as (w' & -> & P & _). cbn [final].
    destruct P as (_ & _ & _ & _ & -> & _). now rewrite Hc.
Qed.

Lemma guarded_count_step now store pg audio vib auto (w : World) (o : op) :
  reachable guarded (loadPage now store pg audio vib auto) w ->
  count_step guarded o w.
Proof.
  intros Hreach.
  destruct (guarded_reachable_full now store pg audio vib auto w Hreach)
    as [Hs (_ & Hc & _)].
  unfold count_step.
  destruct o; cbn [step guarded p_start p_pause p_toggle p_restart p_mute
                     p_tick p_init p_key].
  - left. destruct (running (vars w)) eqn:Hr.
    + now rewrite Guarded_startTimer_running.
    + destruct (Guarded_startTimer_paused w Hr) as (w' & -> & P). apply P.
  - left. destruct (running (vars w)) eqn:Hr.
    + destruct (Guarded_pauseTimer_running w Hr) as (w' & -> & P). apply P.
    + now rewrite Guarded_pauseTimer_paused.
  - left. apply guarded_count_toggle.
  - left. destruct (Guarded_restartTimer_ok w) as (w' & -> & P). apply P.
  - left. destruct (Guarded_toggleMute_ok w) as (w' & -> & P).
    now apply mute_post_count.
  - left. unfold Guarded.handleKeyboardShortcuts.
    destruct (_ || _); [reflexivity |].
    destruct (String.eqb key " "); [apply guarded_count_toggle |].
    destruct (_ || _).
    { destruct (Guarded_restartTimer_ok w) as (w' & -> & P). apply P. }
    destruct (_ || _); [| reflexivity].
    destruct (Guarded_toggleMute_ok w) as (w' & -> & P).
    now apply mute_post_count.
  - unfold fireAll. cbn [guarded p_tick].
    destruct (sched_inv_timers_cases w Hs) as [[-> _] | (i & -> & Hr)];
      [left; reflexivity |].
    cbn [fold_left]. destruct (sched_end w Hs) as (e & He).
    destruct (Z_le_gt_dec (e - clock w) 0) as [Hle | Hgt].
    + destruct (timerElement (page w)) as [t|] eqn:Et.
      * right. destruct (Guarded_tick_finish w e He Hle) as (w' & -> & P);
          [rewrite Et; eauto |].
        cbn [final]. repeat split.
        -- unfold phase_of. now rewrite Hr.
        -- apply P.
        -- now apply finishCount_finish.
      * left. now rewrite (Guarded_tick_no_element w e He Hle Et).
    + left. destruct (Guarded_tick_idle w e He ltac:(lia)) as (w' & -> & P).
      cbn [final]. destruct P as (-> & _). reflexivity.
  - left. reflexivity.
  - left. unfold reload.
    destruct (guarded_boot_full (clock w) (localStorage w) (page w)
                (webAudio w) (canVibrate w) (autoplay w))
      as (w' & -> & P & _). cbn [final].
    destruct P as (_ & _ & _ & _ & -> & _). now rewrite Hc.
Qed.

(** X12.  Take a page load whose stored count and remaining time are safe
    values, a run on which the count stays a safe integer (or NaN), and an
    operation after which it still is one.  No control, key, wait or reload
    changes the count: the only operation that does is a round of the
    scheduler on a running engine, which then adds exactly one and
    announces exactly one finish. *)
Theorem count_changes_only_on_tick now store pg audio vib auto
    (w : World) (o : op) :
  safe_store store ->
  (page_complete pg ->
   reachable_safe script (loadPage now store pg audio vib auto) w ->
   count_safe (step script o w) ->
   count_step script o w) /\
  (reachable_safe guarded (loadPage now store pg audio vib auto) w ->
   count_safe (step guarded o w) ->
   count_step guarded o w).
Proof.
  intros _. split.
  - intros Hpg Hr _. apply reachable_safe_reachable in Hr as [Hr _].
    now apply (script_count_step now store pg audio vib auto).
  - intros Hr _. apply reachable_safe_reachable in Hr as [Hr _].
    now apply (guarded_count_step now store pg audio vib auto).
Qed.

Lemma count_changes_only_on_tick_witness :
  count_step script OpRestart
    (final (Script.onDOMContentLoaded
              (loadPage 1000 ∅ fullPage true true true))).
Proof.
  refine (proj1 (count_changes_only_on_tick 1000 ∅ fullPage true true true
                   _ OpRestart safe_store_empty) fullPage_complete
            script_boot_run_safe _).
  vm_compute. split; discriminate.
Defined.

(** ** A paused engine is at rest *)

(** X13.  In every reachable paused state no interval is scheduled, so a
    round of the scheduler changes nothing, however much time has passed:
    waiting only moves the clock. *)
Theorem paused_is_frozen now store pg audio vib auto (w : World) :
  (page_complete pg ->
   reachable script (loadPage now store pg audio vib auto) w ->
   phase_of w = Paused ->
   timers w = [] /\
   forall d, step script OpTick (step script (OpWait d) w)
             = advance (Z.of_N d) w) /\
  (reachable guarded (loadPage now store pg audio vib auto) w ->
   phase_of w = Paused ->
   timers w = [] /\
   forall d, step guarded OpTick (step guarded (OpWait d) w)
             = advance (Z.of_N d) w).
Proof.
  assert (forall P, sched_inv w -> phase_of w = Paused ->
            timers w = [] /\
            forall d, step P OpTick (step P (OpWait d) w)
                      = advance (Z.of_N d) w) as Hgen.
  { intros P Hs Hph.
    destruct (sched_inv_timers_cases w Hs) as [[Ht _] | (i & _ & Hr)].
    - split; [exact Ht |]. intros d. cbn [step]. unfold fireAll. cbn.
      now rewrite Ht.
    - unfold phase_of in Hph. rewrite Hr in Hph. discriminate. }
  split.
  - intros Hpg Hr. apply Hgen.
    now apply (script_reachable_sched now store pg audio vib auto w Hpg).
  - intros Hr. apply Hgen.
    now apply (guarded_reachable_sched now store pg audio vib auto w).
Qed.

Lemma paused_is_frozen_witness :
  timers (step guarded OpPause
            (final (Guarded.initApp
                      (loadPage 1000 ∅ emptyPage true true true)))) = [].
Proof.
  refine (proj1 (proj2 (paused_is_frozen 1000 ∅ emptyPage true true true _)
                   _ _)).
  - apply reach_step, reach_init.
  - reflexivity.
Defined.

(** ** The display within one cycle *)

(** X14.  For a remaining time of at most one cycle, [msToMMSS] shows
    "00:00" when no time is left (also for negative values), "00:" followed
    by the two-digit ceiling of the seconds left up to 59 seconds, and
    "01:00" above 59 seconds. *)
Theorem msToMMSS_within_cycle (ms : Z) :
  (ms <= 0 -> msToMMSS (Int ms) = "00:00") /\
  (0 < ms <= 59000 ->
   1 <= totalSeconds ms <= 59 /\
   msToMMSS (Int ms) = String "0" (String "0" (String ":"
                         (pad2 (totalSeconds ms))))) /\
  (59000 < ms <= 60000 -> msToMMSS (Int ms) = "01:00").
Proof.
  pose proof (totalSeconds_ceiling ms) as Hc.
  rewrite msToMMSS_pad2. repeat split.
  - intros H. assert (totalSeconds ms = 0) as -> by lia. reflexivity.
  - lia.
  - lia.
  - assert (1 <= totalSeconds ms <= 59) as Hb by lia.
    rewrite Z.div_small, Z.mod_small by lia. reflexivity.
  - intros H. assert (totalSeconds ms = 60) as -> by lia. reflexivity.
Qed.

Lemma msToMMSS_within_cycle_witness :
  1 <= totalSeconds 12345 <= 59 /\
  msToMMSS (Int 12345) = String "0" (String "0" (String ":"
                           (pad2 (totalSeconds 12345)))).
Proof. apply (proj1 (proj2 (msToMMSS_within_cycle 12345))). lia. Defined.

(** ** Loading a page that lacks a button *)







